(** * Lumberyard fragments: PackedVector3, static_storage, AnimGraphOptions,
      RuntimeAssetHandler

    A shallow embedding of four engine fragments and the properties their
    specification states about them.

    - [PackedVector3]        AZ::PackedVector3<TYPE>       (src/unnamed/part_000)
    - [StaticStorage]        AZStd::static_storage<T, D>   (src/unnamed/part_001)
    - [AnimGraphOptions]     EMStudio::AnimGraphOptions    (src/unnamed/part_002)
    - [RuntimeAssetHandler]  ScriptCanvas/Asset/RuntimeAssetHandler.cpp

    The four modules of definitions come first; the modules named
    [...Facts] hold the lemmas and the theorems. *)

From Stdlib Require Import ZArith Lia SpecFloat Ascii.
From stdpp Require Import base tactics option list gmap strings.

Open Scope Z_scope.

(* ===================================================================== *)
(** * PackedVector3<TYPE> *)
(* ===================================================================== *)

Module PackedVector3.

(** Single precision: 24 bits of mantissa, maximal exponent 128. *)
Definition float_prec : Z := 24.
Definition float_emax : Z := 128.

Definition float := spec_float.

(** Modelled from the spec: AZ::Vector3 (AzCore/Math/Vector3.h is not part
    of the sources): "a richer vector type" with three float components,
    built from three scalars and read through GetX/GetY/GetZ. *)
Record Vector3 := mkVector3 { GetX3 : float; GetY3 : float; GetZ3 : float }.

(** The scalar conversions the template relies on: [m_x(rhs.GetX())]
    converts a float to TYPE, [AZ::Vector3(m_x, m_y, m_z)] converts TYPE
    to a float.  The first one is partial: converting a float that TYPE
    cannot hold is undefined in C++. *)
Class Scalar (TYPE : Type) := {
  of_float : float -> option TYPE;
  to_float : TYPE -> float
}.

(** PackedVector3f : TYPE = float, both conversions are the identity. *)
#[export] Instance float_Scalar : Scalar float :=
  {| of_float := Some; to_float := fun f => f |}.

(** PackedVector3i : TYPE = int32_t. *)
Definition int32 := Z.
Definition int32_min : Z := - 2 ^ 31.
Definition int32_max : Z := 2 ^ 31 - 1.

(** float -> int32_t discards the fractional part (truncation toward
    zero); NaN, infinities and values out of range are undefined. *)
Definition float_to_int32 (f : float) : option int32 :=
  match f with
  | S754_zero _ => Some 0
  | S754_finite s m e =>
      let mag := if 0 <=? e then Z.pos m * 2 ^ e
                 else Z.quot (Z.pos m) (2 ^ (- e)) in
      let z := if s then - mag else mag in
      if (int32_min <=? z) && (z <=? int32_max) then Some z else None
  | S754_infinity _ | S754_nan => None
  end.

(** int32_t -> float rounds to the nearest representable float. *)
Definition int32_to_float (z : int32) : float :=
  binary_normalize float_prec float_emax z 0 false.

#[export] Instance int32_Scalar : Scalar int32 :=
  {| of_float := float_to_int32; to_float := int32_to_float |}.

Section Packed.
Context {TYPE : Type}.

Record PackedVector3 := mkPacked { m_x : TYPE; m_y : TYPE; m_z : TYPE }.

(** PackedVector3(TYPE initValue) *)
Definition splat (initValue : TYPE) : PackedVector3 :=
  mkPacked initValue initValue initValue.

(** PackedVector3(const AZ::Vector3& rhs) *)
Definition of_Vector3 `{!Scalar TYPE} (rhs : Vector3) : option PackedVector3 :=
  x ← of_float (GetX3 rhs);
  y ← of_float (GetY3 rhs);
  z ← of_float (GetZ3 rhs);
  Some (mkPacked x y z).

(** operator AZ::Vector3() const *)
Definition to_Vector3 `{!Scalar TYPE} (p : PackedVector3) : Vector3 :=
  mkVector3 (to_float (m_x p)) (to_float (m_y p)) (to_float (m_z p)).

(** void Set(TYPE x, TYPE y, TYPE z) *)
Definition Set_ (p : PackedVector3) (x y z : TYPE) : PackedVector3 :=
  mkPacked x y z.

Definition GetX (p : PackedVector3) : TYPE := m_x p.
Definition GetY (p : PackedVector3) : TYPE := m_y p.
Definition GetZ (p : PackedVector3) : TYPE := m_z p.
Definition SetX (p : PackedVector3) (v : TYPE) : PackedVector3 :=
  mkPacked v (m_y p) (m_z p).
Definition SetY (p : PackedVector3) (v : TYPE) : PackedVector3 :=
  mkPacked (m_x p) v (m_z p).
Definition SetZ (p : PackedVector3) (v : TYPE) : PackedVector3 :=
  mkPacked (m_x p) (m_y p) v.

(** Object representation seen through [reinterpret_cast<TYPE*>(this)]:
    an array of TYPE cells.  The three members have the same type and
    are laid out in declaration order without padding, so they occupy
    the cells at offsets 0, 1 and 2 (in units of sizeof(TYPE)). *)
Definition offset_x : nat := 0.
Definition offset_y : nat := 1.
Definition offset_z : nat := 2.

Definition cells (p : PackedVector3) : list TYPE :=
  <[offset_z := m_z p]> (<[offset_y := m_y p]> (<[offset_x := m_x p]>
    (replicate 3 (m_x p)))).

Definition of_cells (mem : list TYPE) : option PackedVector3 :=
  x ← mem !! offset_x;
  y ← mem !! offset_y;
  z ← mem !! offset_z;
  Some (mkPacked x y z).

(** TYPE GetElement(size_t index) const: reads cell [index]; an index
    past the object is an out-of-bounds read ([None]). *)
Definition GetElement (p : PackedVector3) (index : nat) : option TYPE :=
  cells p !! index.

(** void SetElement(size_t index, TYPE val): writes cell [index]; an
    index past the object is an out-of-bounds write ([None]). *)
Definition SetElement (p : PackedVector3) (index : nat) (val : TYPE)
  : option PackedVector3 :=
  if decide (index < length (cells p))%nat
  then of_cells (<[index := val]> (cells p))
  else None.

(** The component selected by an index: 0 is x, 1 is y, 2 is z. *)
Definition component (p : PackedVector3) (index : nat) : TYPE :=
  match index with
  | O => m_x p
  | S O => m_y p
  | _ => m_z p
  end.

(** explicit PackedVector3(const TYPE* initData): reads initData[0],
    initData[1] and initData[2]; an array with fewer than three elements
    is read out of bounds ([None]). *)
Definition of_initData (initData : list TYPE) : option PackedVector3 :=
  x ← initData !! 0%nat;
  y ← initData !! 1%nat;
  z ← initData !! 2%nat;
  Some (mkPacked x y z).

(** explicit operator const TYPE*() const: [&m_x], that is the array of
    the cells of the object. *)
Definition as_array (p : PackedVector3) : list TYPE := cells p.

(** A float that TYPE holds without loss: converting it to TYPE is defined
    and converting back gives the same float. *)
Definition exactly_representable `{!Scalar TYPE} (c : float) : Prop :=
  exists t : TYPE, of_float c = Some t /\ to_float t = c.

End Packed.
Arguments PackedVector3 : clear implicits.
Arguments exactly_representable TYPE {_} c.

(** Concrete floats used in the examples below. *)
Definition f_zero : float := S754_zero false.
Definition f_half : float := S754_finite false 8388608 (-24).
Definition f_one : float := S754_finite false 8388608 (-23).
Definition f_two : float := S754_finite false 8388608 (-22).
Definition f_minus_three : float := S754_finite true 12582912 (-22).

(** (0.5, 0, 0) and (1, 2, -3). *)
Definition v_half : Vector3 := mkVector3 f_half f_zero f_zero.
Definition v_ints : Vector3 := mkVector3 f_one f_two f_minus_three.

End PackedVector3.


(* ===================================================================== *)
(** * AZStd::static_storage<T, Destructor> *)
(* ===================================================================== *)

(** The class is used by several threads at once, so it is modelled as a
    transition system: a shared part (the raw storage and the atomic
    pointer), one program counter per thread, and a step function that
    runs one atomic action of one thread.  [AZStd::atomic] operations use
    the default sequentially consistent ordering, hence an execution is an
    interleaving: a list of thread identifiers, run by [exec]. *)

Module StaticStorage.
#[local] Open Scope nat_scope.

(** Pointer values of [T*]. *)
Inductive ptr := Null | Addr (a : nat).

#[export] Instance ptr_eq_dec : EqDecision ptr.
Proof. solve_decision. Defined.

(** What [m_storage] holds. *)
Inductive storage_state (T : Type) :=
| Raw                      (* reserved bytes, no object yet *)
| Partial                  (* T's constructor is running *)
| Constructed (v : T)      (* a fully constructed T *)
| Destroyed.               (* ~T() has run *)
Arguments Raw {T}.
Arguments Partial {T}.
Arguments Constructed {T} v.
Arguments Destroyed {T}.

(** The two Destructor functors: [default_destruct] calls [ptr->~T()],
    [no_destruct] does nothing. *)
Inductive destructor := default_destruct | no_destruct.

Definition run_Destructor {T} (d : destructor) (st : storage_state T)
  : storage_state T :=
  match d with
  | default_destruct => Destroyed
  | no_destruct => st
  end.

(** static_storage(Args&&...):
      m_object.store(new (&m_storage) T(forward<Args>(args)...)); *)
Inductive ctor_pc :=
| CtorStart       (* constructor entered *)
| CtorBuilding    (* inside T(args...) of the placement new *)
| CtorBuilt       (* placement new returned &m_storage *)
| CtorDone.       (* m_object.store(...) done *)

(** operator T&():
      T* obj = nullptr;
      do { obj = m_object.load(); } while (obj != &m_storage);
      return *obj; *)
Inductive reader_pc :=
| RdLoad                 (* about to execute m_object.load() *)
| RdTest (obj : ptr)     (* obj loaded, about to test the loop condition *)
| RdRet (obj : ptr).     (* returned *obj *)

(** ~static_storage():
      T* expected = &m_storage;
      if (m_object.compare_exchange_strong(expected, nullptr))
          Destructor()(&m_storage); *)
Inductive dtor_pc :=
| DStart                 (* about to execute the compare-and-swap *)
| DWon                   (* CAS succeeded, about to call Destructor() *)
| DCleaned               (* Destructor() called, destructor returned *)
| DSkipped (seen : ptr). (* CAS failed (expected := seen), returned *)

Inductive tid :=
| TCtor
| TReader (i : nat)
| TDtor (j : nat).


(** The constructor thread advances by one program point at each of its
    steps, whatever the other threads do. *)
Definition ctor_next (pc : ctor_pc) : ctor_pc :=
  match pc with
  | CtorStart => CtorBuilding
  | CtorBuilding => CtorBuilt
  | CtorBuilt | CtorDone => CtorDone
  end.

Fixpoint ctor_steps (sched : list tid) : nat :=
  match sched with
  | [] => 0
  | TCtor :: sched => S (ctor_steps sched)
  | _ :: sched => ctor_steps sched
  end.

#[export] Instance tid_eq_dec : EqDecision tid.
Proof. solve_decision. Defined.

(** How many steps thread [t] takes in a schedule. *)
Fixpoint steps_of (t : tid) (sched : list tid) : nat :=
  match sched with
  | [] => 0
  | t' :: sched => (if decide (t' = t) then 1 else 0) + steps_of t sched
  end.

(** How far a teardown thread has come: before the compare-and-swap,
    between the compare-and-swap and the call of the Destructor, returned. *)
Definition dtor_rank (d : dtor_pc) : nat :=
  match d with
  | DStart => 0
  | DWon => 1
  | DCleaned | DSkipped _ => 2
  end.

Section Machine.
Context {T : Type}.

Record config := mkConfig {
  m_storage : storage_state T;
  m_object : ptr;
  ctor_calls : nat;          (* how many times T(args...) was entered *)
  dtor_calls : nat;          (* how many times Destructor() was called *)
  ctor : ctor_pc;
  readers : list reader_pc;
  dtors : list dtor_pc
}.

(** [storage_addr] is [&m_storage] (an address, never null); [garbage]
    is what the memory of [m_object] holds before the constructor's
    store ("m_object is not initialized"): zero for an object with
    static storage duration, anything otherwise; [value] is the object
    that [T(args...)] builds. *)
Variable storage_addr : nat.
Variable garbage : ptr.
Variable value : T.
Variable Destructor : destructor.

Definition init (n_readers n_dtors : nat) : config :=
  mkConfig Raw garbage 0 0 CtorStart
           (replicate n_readers RdLoad) (replicate n_dtors DStart).

Definition ctor_step (c : config) : config :=
  match ctor c with
  | CtorStart =>
      mkConfig Partial (m_object c) (S (ctor_calls c)) (dtor_calls c)
               CtorBuilding (readers c) (dtors c)
  | CtorBuilding =>
      mkConfig (Constructed value) (m_object c) (ctor_calls c) (dtor_calls c)
               CtorBuilt (readers c) (dtors c)
  | CtorBuilt =>
      mkConfig (m_storage c) (Addr storage_addr) (ctor_calls c) (dtor_calls c)
               CtorDone (readers c) (dtors c)
  | CtorDone => c
  end.

Definition reader_next (obj_now : ptr) (r : reader_pc) : reader_pc :=
  match r with
  | RdLoad => RdTest obj_now
  | RdTest obj => if decide (obj = Addr storage_addr) then RdRet obj else RdLoad
  | RdRet obj => RdRet obj
  end.

Definition reader_step (i : nat) (c : config) : config :=
  match readers c !! i with
  | Some r =>
      mkConfig (m_storage c) (m_object c) (ctor_calls c) (dtor_calls c)
               (ctor c) (<[i := reader_next (m_object c) r]> (readers c))
               (dtors c)
  | None => c
  end.

Definition dtor_step (j : nat) (c : config) : config :=
  match dtors c !! j with
  | Some DStart =>
      if decide (m_object c = Addr storage_addr)
      then mkConfig (m_storage c) Null (ctor_calls c) (dtor_calls c)
                    (ctor c) (readers c) (<[j := DWon]> (dtors c))
      else mkConfig (m_storage c) (m_object c) (ctor_calls c) (dtor_calls c)
                    (ctor c) (readers c)
                    (<[j := DSkipped (m_object c)]> (dtors c))
  | Some DWon =>
      mkConfig (run_Destructor Destructor (m_storage c)) (m_object c)
               (ctor_calls c) (S (dtor_calls c))
               (ctor c) (readers c) (<[j := DCleaned]> (dtors c))
  | Some DCleaned | Some (DSkipped _) | None => c
  end.

(** One atomic action of thread [t]; a thread that has returned (or
    does not exist) leaves the configuration as it is. *)
Definition step (t : tid) (c : config) : config :=
  match t with
  | TCtor => ctor_step c
  | TReader i => reader_step i c
  | TDtor j => dtor_step j c
  end.

(** An execution: the threads named in [sched] step in that order. *)
Definition exec (sched : list tid) (c : config) : config :=
  foldl (fun c t => step t c) c sched.

(** Bookkeeping over the teardown threads. *)
Definition won (d : dtor_pc) : nat :=
  match d with DWon | DCleaned => 1 | _ => 0 end.
Definition cleaned (d : dtor_pc) : nat :=
  match d with DCleaned => 1 | _ => 0 end.
(** A teardown thread that won the CAS and has not cleaned up yet. *)
Definition pending (d : dtor_pc) : nat :=
  match d with DWon => 1 | _ => 0 end.
Definition dtor_finished (d : dtor_pc) : bool :=
  match d with DCleaned | DSkipped _ => true | _ => false end.

Definition winners (c : config) : nat := sum_list (won <$> dtors c).
Definition cleanups (c : config) : nat := sum_list (cleaned <$> dtors c).


(** The object in the storage is usable as a T. *)
Definition fully_constructed (c : config) : Prop :=
  m_storage c = Constructed value.

(** Construction has finished (the object may have been torn down
    since). *)
Definition construction_complete (c : config) : Prop :=
  m_storage c <> Raw /\ m_storage c <> Partial.

(** The values the pointer takes: what its memory held before the
    constructor's store, null, and the address of the storage. *)
Definition pointer_value (p : ptr) : Prop :=
  p = garbage \/ p = Null \/ p = Addr storage_addr.

(** What a reader holds in [obj]: a value of the pointer while it is in
    the loop, the address of the storage once it has left the loop. *)
Definition reader_value (r : reader_pc) : Prop :=
  match r with
  | RdLoad => True
  | RdTest obj => pointer_value obj
  | RdRet obj => obj = Addr storage_addr
  end.



(** *** The invariant of the executions

    What holds of a configuration at each program point of the
    constructor, for each reader and for each teardown thread. *)

(** Once built, the storage holds the object until the winner of the
    compare-and-swap has called the Destructor. *)
Definition storage_as_expected (c : config) : Prop :=
  m_storage c =
    if decide (cleanups c = 0) then Constructed value
    else run_Destructor Destructor (Constructed value).

Definition ctor_inv (c : config) : Prop :=
  match ctor c with
  | CtorStart =>
      m_storage c = Raw /\ ctor_calls c = 0 /\ m_object c = garbage /\ winners c = 0
  | CtorBuilding =>
      m_storage c = Partial /\ ctor_calls c = 1 /\ m_object c = garbage /\ winners c = 0
  | CtorBuilt =>
      m_storage c = Constructed value /\ ctor_calls c = 1 /\
      m_object c = garbage /\ winners c = 0
  | CtorDone =>
      ctor_calls c = 1 /\ storage_as_expected c /\
      ((m_object c = Addr storage_addr /\ winners c = 0) \/
       (m_object c = Null /\ winners c = 1))
  end.

Definition reader_inv (c : config) (r : reader_pc) : Prop :=
  match r with
  | RdLoad => True
  | RdTest obj =>
      (obj = garbage \/ obj = Null \/ obj = Addr storage_addr) /\
      (obj = Addr storage_addr -> ctor c = CtorDone)
  | RdRet obj => obj = Addr storage_addr /\ ctor c = CtorDone
  end.

Record Inv (c : config) : Prop := mkInv {
  inv_ctor : ctor_inv c;
  inv_dtor_calls : dtor_calls c = cleanups c;
  inv_readers : forall i r, readers c !! i = Some r -> reader_inv c r;
  inv_skipped : forall j seen, dtors c !! j = Some (DSkipped seen) -> seen <> Addr storage_addr
}.


End Machine.
Arguments config : clear implicits.
Arguments inv_ctor {T storage_addr garbage value Destructor} c _.
Arguments inv_dtor_calls {T storage_addr garbage value Destructor} c _.
Arguments inv_readers {T storage_addr garbage value Destructor} c _ i r _.
Arguments inv_skipped {T storage_addr garbage value Destructor} c _ j seen _.

(** ** Several invocations of the constructor

    The class has no code that chooses which caller constructs: every
    invocation of the constructor runs the placement new and the store.
    Callers that race through an initialisation that is not thread-safe
    (the case the header of the class describes) can therefore run the
    constructor more than once on the same object.  Besides the
    invocation [ctor] of a configuration, [extra_ctors] holds the program
    counters of the further invocations; each of them runs [ctor_step],
    the code of the constructor, on the shared part. *)
Section Callers.
Context {T : Type}.
Variable storage_addr : nat.
Variable value : T.
Variable Destructor : destructor.

Record callers := mkCallers {
  base : config T;
  extra_ctors : list ctor_pc
}.

Inductive caller_tid :=
| TBase (t : tid)
| TExtraCtor (k : nat).

(** The configuration seen by an invocation whose program counter is [pc]. *)
Definition with_ctor (pc : ctor_pc) (c : config T) : config T :=
  mkConfig (m_storage c) (m_object c) (ctor_calls c) (dtor_calls c)
           pc (readers c) (dtors c).

Definition extra_ctor_step (k : nat) (cs : callers) : callers :=
  match extra_ctors cs !! k with
  | Some pc =>
      let c' := ctor_step storage_addr value (with_ctor pc (base cs)) in
      mkCallers (with_ctor (ctor (base cs)) c')
                (<[k := ctor c']> (extra_ctors cs))
  | None => cs
  end.

Definition callers_step (t : caller_tid) (cs : callers) : callers :=
  match t with
  | TBase t => mkCallers (step storage_addr value Destructor t (base cs))
                         (extra_ctors cs)
  | TExtraCtor k => extra_ctor_step k cs
  end.

Definition callers_exec (sched : list caller_tid) (cs : callers) : callers :=
  foldl (fun cs t => callers_step t cs) cs sched.

Definition callers_init (garbage : ptr) (n_readers n_dtors n_extra : nat)
  : callers :=
  mkCallers (init garbage n_readers n_dtors) (replicate n_extra CtorStart).

(** An invocation of the constructor that has entered T(args...). *)
Definition started (pc : ctor_pc) : nat :=
  match pc with CtorStart => 0 | _ => 1 end.

Definition invocations_started (cs : callers) : nat :=
  started (ctor (base cs)) + sum_list (started <$> extra_ctors cs).

End Callers.
Arguments callers : clear implicits.

(** One constructor, two readers, two teardown attempts; the storage is
    at address 1 and the pointer starts out null. *)
Definition demo_sched : list tid :=
  [TReader 0; TCtor; TReader 0; TCtor; TReader 1; TCtor;
   TReader 0; TReader 0; TDtor 1; TDtor 0; TReader 1; TDtor 1; TReader 1].

Definition demo_run (sched : list tid) : config nat :=
  exec 1 42 default_destruct sched (init Null 2 2).

End StaticStorage.

(* ===================================================================== *)
(** * EMStudio::AnimGraphOptions *)
(* ===================================================================== *)

Module AnimGraphOptions.

Definition s_graphAnimationOptionName : string := "useGraphAnimation".
Definition s_showFPSOptionName : string := "showFPS".

(** Modelled from the spec: QVariant and QSettings (Qt is not part of the
    sources): "an external key-value settings store" whose values are
    variants.  A key that was never written reads as the invalid
    variant, for which [isNull] holds; [toBool] follows Qt: a bool is
    itself, a number is true when non-zero, a string is false exactly
    when its lower-case form is empty, 0 or false. *)
Inductive QVariant :=
| QInvalid
| QBool (b : bool)
| QInt (n : Z)
| QString (s : string).

Definition isNull (v : QVariant) : bool :=
  match v with QInvalid => true | _ => false end.

Definition lower_ascii (c : ascii) : ascii :=
  let n := Ascii.nat_of_ascii c in
  if ((65 <=? n) && (n <=? 90))%nat then Ascii.ascii_of_nat (n + 32) else c.

Fixpoint toLower (s : string) : string :=
  match s with
  | EmptyString => EmptyString
  | String c s' => String (lower_ascii c) (toLower s')
  end.

Definition toBool (v : QVariant) : bool :=
  match v with
  | QInvalid => false
  | QBool b => b
  | QInt n => negb (n =? 0)
  | QString s =>
      let l := toLower s in
      negb (bool_decide (l = EmptyString \/ l = "0"%string \/ l = "false"%string))
  end.

Abbreviation QSettings := (gmap string QVariant).

Definition setValue (key : string) (v : QVariant) (settings : QSettings)
  : QSettings := <[key := v]> settings.

Definition value (key : string) (settings : QSettings) : QVariant :=
  default QInvalid (settings !! key).

Record AnimGraphOptions := mkOptions {
  m_graphAnimation : bool;
  m_showFPS : bool
}.

(** AnimGraphOptions::AnimGraphOptions() *)
Definition new : AnimGraphOptions := mkOptions true false.

Definition GetGraphAnimation (o : AnimGraphOptions) : bool := m_graphAnimation o.
Definition GetShowFPS (o : AnimGraphOptions) : bool := m_showFPS o.

(** void Save(QSettings* settings) *)
Definition Save (o : AnimGraphOptions) (settings : QSettings) : QSettings :=
  let settings := setValue s_graphAnimationOptionName (QBool (m_graphAnimation o)) settings in
  setValue s_showFPSOptionName (QBool (m_showFPS o)) settings.

(** static AnimGraphOptions Load(QSettings* settings) *)
Definition Load (settings : QSettings) : AnimGraphOptions :=
  let options := new in
  let tmpVariant := value s_graphAnimationOptionName settings in
  let options :=
    if negb (isNull tmpVariant)
    then mkOptions (toBool tmpVariant) (m_showFPS options)
    else options in
  let tmpVariant := value s_showFPSOptionName settings in
  let options :=
    if negb (isNull tmpVariant)
    then mkOptions (m_graphAnimation options) (toBool tmpVariant)
    else options in
  options.

(** The setters act on the object and on PluginOptionsNotificationsBus;
    the bus is modelled by the list of OnOptionChanged events sent so
    far (newest last), each carrying the option name. *)
Record world := mkWorld {
  options : AnimGraphOptions;
  bus : list string
}.

Definition OnGraphAnimationChangedCallback (w : world) : world :=
  mkWorld (options w) (bus w ++ [s_graphAnimationOptionName]).

Definition OnShowFPSChangedCallback (w : world) : world :=
  mkWorld (options w) (bus w ++ [s_showFPSOptionName]).

(** void SetGraphAnimation(bool graphAnimation) *)
Definition SetGraphAnimation (graphAnimation : bool) (w : world) : world :=
  if negb (eqb graphAnimation (m_graphAnimation (options w)))
  then OnGraphAnimationChangedCallback
         (mkWorld (mkOptions graphAnimation (m_showFPS (options w))) (bus w))
  else w.

(** void SetShowFPS(bool showFPS) *)
Definition SetShowFPS (showFPS : bool) (w : world) : world :=
  if negb (eqb showFPS (m_showFPS (options w)))
  then OnShowFPSChangedCallback
         (mkWorld (mkOptions (m_graphAnimation (options w)) showFPS) (bus w))
  else w.

(** AnimGraphOptions& operator=(const AnimGraphOptions& other) *)
Definition assign (other : AnimGraphOptions) (w : world) : world :=
  SetShowFPS (GetShowFPS other) (SetGraphAnimation (GetGraphAnimation other) w).

(** The events a call has sent: what it appended to the bus. *)
Definition fired (before after : world) : list string :=
  drop (length (bus before)) (bus after).

(** A store that holds the show-FPS flag only. *)
Definition fps_only : QSettings := {[ s_showFPSOptionName := QBool true ]}.

End AnimGraphOptions.

(* ===================================================================== *)
(** * ScriptCanvas::RuntimeAssetHandler *)
(* ===================================================================== *)

Module RuntimeAssetHandler.

(** AZ::IO::GenericStream: the bytes and the current read position. *)
Record GenericStream := mkStream {
  content : list Z;
  position : nat
}.

(** stream->Seek(offset, ST_SEEK_BEGIN) *)
Definition Seek_begin (offset : nat) (s : GenericStream) : GenericStream :=
  mkStream (content s) offset.

(** What AZ_Assert and AZ_Error hand to the host. *)
Inductive diagnostic :=
| AssertFailed (msg : string)
| ErrorReported (window msg : string).

Definition not_runtime_asset_msg : string :=
  "This should be a Script Canvas runtime asset, as this is the only type we process!".
Definition no_context_msg : string :=
  "RuntimeAssetHandler: No serialize context provided! We will not be able to process the Script Canvas Runtime Asset type".

Section Handler.
(** The engine types the handler only passes around. *)
Context {SerializeContext RuntimeData OtherData AssetFilterCB : Type}.

(** What an AZ::Data::Asset<AssetData> refers to: a RuntimeAsset, an
    asset of another type, or nothing. *)
Inductive AssetData :=
| RuntimeAsset (m_runtimeData : RuntimeData)
| OtherAsset (d : OtherData).

Definition Asset := option AssetData.

(** asset.GetAs<RuntimeAsset>() *)
Definition GetAs_RuntimeAsset (asset : Asset) : option RuntimeData :=
  match asset with
  | Some (RuntimeAsset d) => Some d
  | _ => None
  end.

(** AZ::Utils::LoadObjectFromStreamInPlace(stream, data, context, filter):
    success flag, the data as rewritten in place, the stream as left. *)
Variable LoadObjectFromStreamInPlace :
  GenericStream -> RuntimeData -> SerializeContext -> AssetFilterCB ->
  bool * RuntimeData * GenericStream.

(** ObjectStream::Create(stream, context, ST_XML), WriteClass(&data),
    Finalize(): the flag of WriteClass and the stream as written. *)
Variable WriteClass :
  GenericStream -> SerializeContext -> RuntimeData -> bool * GenericStream.

(** AZ::IO::FileIOBase::GetInstance(): the installed file IO, if any;
    opening a path for reading gives its bytes or fails. *)
Variable FileIO_instance : option (string -> option (list Z)).

(** ComponentApplicationBus::BroadcastResult(result, GetSerializeContext):
    [None] when no handler is connected (the result is left as it
    was), otherwise the pointer the application returns. *)
Variable app_GetSerializeContext : option (option SerializeContext).

Record handler := mkHandler {
  m_serializeContext : option SerializeContext
}.

Record outcome := mkOutcome {
  ret : bool;
  asset_after : Asset;
  stream_after : option GenericStream;
  reported : list diagnostic
}.

(** The guard [runtimeAsset && m_serializeContext] of load and save. *)
Definition unusable (h : handler) (asset : Asset) : Prop :=
  GetAs_RuntimeAsset asset = None \/ m_serializeContext h = None.

(** AZ_Assert(runtimeAsset, ...) *)
Definition assert_runtime_asset (runtimeAsset : option RuntimeData)
  : list diagnostic :=
  match runtimeAsset with
  | Some _ => []
  | None => [AssertFailed not_runtime_asset_msg]
  end.

(** bool LoadAssetData(asset, GenericStream* stream, assetLoadFilterCB) *)
Definition LoadAssetData (h : handler) (asset : Asset)
    (stream : GenericStream) (assetLoadFilterCB : AssetFilterCB) : outcome :=
  let runtimeAsset := GetAs_RuntimeAsset asset in
  let diag := assert_runtime_asset runtimeAsset in
  match runtimeAsset, m_serializeContext h with
  | Some data, Some context =>
      let stream := Seek_begin 0 stream in
      let '(loadSuccess, data', stream') :=
        LoadObjectFromStreamInPlace stream data context assetLoadFilterCB in
      mkOutcome loadSuccess (Some (RuntimeAsset data')) (Some stream') diag
  | _, _ => mkOutcome false asset (Some stream) diag
  end.

(** bool LoadAssetData(asset, const char* assetPath, assetLoadFilterCB) *)
Definition LoadAssetData_path (h : handler) (asset : Asset)
    (assetPath : string) (assetLoadFilterCB : AssetFilterCB) : outcome :=
  match FileIO_instance with
  | Some fileIO =>
      match fileIO assetPath with
      | Some bytes =>
          let r := LoadAssetData h asset (mkStream bytes 0) assetLoadFilterCB in
          mkOutcome (ret r) (asset_after r) None (reported r)
      | None => mkOutcome false asset None []
      end
  | None => mkOutcome false asset None []
  end.

(** bool SaveAssetData(asset, GenericStream* stream) *)
Definition SaveAssetData (h : handler) (asset : Asset)
    (stream : GenericStream) : outcome :=
  let runtimeAsset := GetAs_RuntimeAsset asset in
  let diag := assert_runtime_asset runtimeAsset in
  match runtimeAsset, m_serializeContext h with
  | Some data, Some context =>
      let '(graphSaved, stream') := WriteClass stream context data in
      mkOutcome graphSaved asset (Some stream') diag
  | _, _ => mkOutcome false asset (Some stream) diag
  end.

(** void SetSerializeContext(AZ::SerializeContext* context) *)
Definition SetSerializeContext (context : option SerializeContext)
  : handler * list diagnostic :=
  let m := context in
  match m with
  | Some _ => (mkHandler m, [])
  | None =>
      let m := match app_GetSerializeContext with
               | Some answer => answer
               | None => m
               end in
      match m with
      | Some _ => (mkHandler m, [])
      | None => (mkHandler m, [ErrorReported "Script Canvas" no_context_msg])
      end
  end.

(** RuntimeAssetHandler(AZ::SerializeContext* context) *)
Definition new (context : option SerializeContext) : handler * list diagnostic :=
  SetSerializeContext context.

(** AZ::SerializeContext* GetSerializeContext() const *)
Definition GetSerializeContext (h : handler) : option SerializeContext :=
  m_serializeContext h.

End Handler.
Arguments AssetData : clear implicits.
Arguments Asset : clear implicits.
Arguments handler : clear implicits.
Arguments outcome : clear implicits.

Section TypeInfo.
(** Asset types and asset ids are opaque to the handler; asset types are
    compared with [==]. *)
Context {Uuid AssetId RuntimeData OtherData : Type} `{!EqDecision Uuid}.

(** AZ::AzTypeInfo<RuntimeAsset>::Uuid() and RuntimeAsset::GetFileExtension()
    (RuntimeAsset.h is not part of the sources). *)
Variable RuntimeAsset_Uuid : Uuid.
Variable RuntimeAsset_FileExtension : string.

(** The runtime data of a RuntimeAsset as its constructor leaves it. *)
Variable fresh_runtimeData : RuntimeData.

Definition wrong_type_msg : string :=
  "This handler deals only with the Script Canvas Runtime Asset type!".

(** AssetPtr CreateAsset(const AssetId& id, const AssetType& type): the
    new asset with its id, and what AZ_Assert reports. *)
Definition CreateAsset (id : AssetId) (type : Uuid)
  : AssetId * AssetData RuntimeData OtherData * list diagnostic :=
  (id, RuntimeAsset fresh_runtimeData,
   if decide (type = RuntimeAsset_Uuid) then [] else [AssertFailed wrong_type_msg]).

(** void GetHandledAssetTypes(vector<AssetType>& assetTypes) *)
Definition GetHandledAssetTypes (assetTypes : list Uuid) : list Uuid :=
  assetTypes ++ [RuntimeAsset_Uuid].

(** void GetAssetTypeExtensions(vector<string>& extensions), answered on
    the bus address [currentBusId], the asset type that
    AssetTypeInfoBus::GetCurrentBusId() points to. *)
Definition GetAssetTypeExtensions (currentBusId : Uuid) (extensions : list string)
  : list string :=
  if decide (currentBusId = RuntimeAsset_Uuid)
  then extensions ++ [RuntimeAsset_FileExtension]
  else extensions.

(** AZ::Data::AssetType GetAssetType() const *)
Definition GetAssetType : Uuid := RuntimeAsset_Uuid.

Definition GetAssetTypeDisplayName : string := "Script Canvas Runtime Graph".
Definition GetGroup : string := "Script".
Definition GetBrowserIcon : string :=
  "Editor/Icons/ScriptCanvas/Viewport/ScriptCanvas.png".

End TypeInfo.

(** A small instance: contexts and data are numbers, a stream loads when
    its first unread byte is 1, and the file system knows one path. *)
Definition demo_load (s : GenericStream) (d : nat) (c : nat) (f : unit)
  : bool * nat * GenericStream :=
  match drop (position s) (content s) with
  | 1 :: _ => (true, length (content s), mkStream (content s) (length (content s)))
  | _ => (false, d, s)
  end.

Definition demo_write (s : GenericStream) (c : nat) (d : nat)
  : bool * GenericStream :=
  (true, mkStream (content s ++ [Z.of_nat d]) (position s)).

Definition demo_fs (path : string) : option (list Z) :=
  if decide (path = "graph.scriptcanvas_compiled"%string) then Some [1; 2; 3] else None.

Definition demo_asset : Asset nat unit := Some (RuntimeAsset 0%nat).

End RuntimeAssetHandler.

(* ===================================================================== *)
(** * Properties of PackedVector3 *)
(* ===================================================================== *)

Module PackedVector3Facts.
Import PackedVector3.

Section Elements.
Context {TYPE : Type}.
Implicit Types (p q : PackedVector3 TYPE) (val : TYPE).

Lemma cells_eq p : cells p = [m_x p; m_y p; m_z p].
Proof. reflexivity. Qed.

Lemma of_cells_cells p : of_cells (cells p) = Some p.
Proof. by destruct p. Qed.

Lemma GetElement_out_of_range p i : (3 <= i)%nat -> GetElement p i = None.
Proof.
  intros Hi. unfold GetElement. apply lookup_ge_None. by rewrite cells_eq.
Qed.

Lemma SetElement_out_of_range p i val : (3 <= i)%nat -> SetElement p i val = None.
Proof.
  intros Hi. unfold SetElement. rewrite cells_eq. simpl.
  case_decide; [lia | done].
Qed.

Lemma SetElement_0 p val : SetElement p 0 val = Some (SetX p val).
Proof. reflexivity. Qed.

Lemma SetElement_1 p val : SetElement p 1 val = Some (SetY p val).
Proof. reflexivity. Qed.

Lemma SetElement_2 p val : SetElement p 2 val = Some (SetZ p val).
Proof. reflexivity. Qed.

(** C8: for every index i in {0, 1, 2}, GetElement(i) returns the x, y or z
    component respectively, and SetElement(i, val) sets exactly that
    component and leaves the other two as they were. *)
Theorem GetElement_SetElement_spec p (i : nat) val :
  (i < 3)%nat ->
  GetElement p i = Some (component p i) /\
  exists q, SetElement p i val = Some q /\
            component q i = val /\
            forall j, (j < 3)%nat -> j <> i -> component q j = component p j.
Proof.
  intros Hi.
  destruct i as [|[|[|i]]]; [| | |lia].
  - split; [done|]. exists (SetX p val). rewrite SetElement_0.
    repeat split. intros [|[|[|j]]] Hj Hne; (done || lia).
  - split; [done|]. exists (SetY p val). rewrite SetElement_1.
    repeat split. intros [|[|[|j]]] Hj Hne; (done || lia).
  - split; [done|]. exists (SetZ p val). rewrite SetElement_2.
    repeat split. intros [|[|[|j]]] Hj Hne; (done || lia).
Qed.

End Elements.

Lemma GetElement_SetElement_spec_witness :
  GetElement (mkPacked 10 20 30) 1 = Some 20 /\
  SetElement (mkPacked 10 20 30) 1 77 = Some (mkPacked 10 77 30).
Proof.
  destruct (GetElement_SetElement_spec (mkPacked 10 20 30) 1 77 ltac:(lia))
    as [Hget _].
  split; [exact Hget | reflexivity].
Defined.

Section Access.
Context {TYPE : Type}.
Implicit Types (p q : PackedVector3 TYPE) (val : TYPE) (l : list TYPE).

Lemma of_initData_Some l q :
  of_initData l = Some q -> take 3 l = [m_x q; m_y q; m_z q].
Proof.
  unfold of_initData. destruct l as [|x [|y [|z l]]]; simpl; try done.
  by intros [= <-].
Qed.

Lemma of_initData_None l : of_initData l = None <-> (length l < 3)%nat.
Proof.
  unfold of_initData. destruct l as [|x [|y [|z l]]]; simpl; split;
    (done || lia).
Qed.

(** X1: The constructor from an array and the conversion to an array are
    inverse to each other: an object converted to an array and read back
    (whatever follows it in memory) is the same object, the constructor
    reads exactly the first three elements, and it reads out of bounds
    exactly when the array has fewer than three elements. *)
Theorem initData_roundtrip p :
  (forall rest, of_initData (as_array p ++ rest) = Some p) /\
  (forall l q, of_initData l = Some q -> as_array q = take 3 l) /\
  (forall l, of_initData l = None <-> (length l < 3)%nat).
Proof.
  split; [|split].
  - intros rest. by destruct p.
  - intros l q Hq. unfold as_array. rewrite cells_eq.
    symmetry. by apply of_initData_Some.
  - apply of_initData_None.
Qed.

(** X2: Access by index and access by name agree: GetElement(0), (1), (2) are
    GetX, GetY, GetZ; SetElement(0), (1), (2) are SetX, SetY, SetZ; and
    Set(x, y, z) is the three indexed writes in a row. *)
Theorem indexed_access_is_named_access p (x y z : TYPE) :
  GetElement p 0 = Some (GetX p) /\
  GetElement p 1 = Some (GetY p) /\
  GetElement p 2 = Some (GetZ p) /\
  SetElement p 0 x = Some (SetX p x) /\
  SetElement p 1 y = Some (SetY p y) /\
  SetElement p 2 z = Some (SetZ p z) /\
  (SetElement p 0 x ≫= fun q => SetElement q 1 y ≫= fun q => SetElement q 2 z)
    = Some (Set_ p x y z) /\
  Set_ p x x x = splat x.
Proof. by destruct p. Qed.

(** X3: GetElement and SetElement do not check the index: the indices 0, 1
    and 2 stay inside the object, every other index reads or writes past
    its end. *)
Theorem element_access_bounds p (i : nat) val :
  (GetElement p i = None <-> (3 <= i)%nat) /\
  (SetElement p i val = None <-> (3 <= i)%nat) /\
  (is_Some (GetElement p i) <-> is_Some (SetElement p i val)).
Proof.
  assert (GetElement p i = None <-> (3 <= i)%nat) as Hget.
  { unfold GetElement. rewrite lookup_ge_None, cells_eq. done. }
  assert (SetElement p i val = None <-> (3 <= i)%nat) as Hset.
  { split; [|apply SetElement_out_of_range].
    destruct i as [|[|[|i]]]; [done..|]. intros _. lia. }
  split; [done|]. split; [done|].
  rewrite <- !not_eq_None_Some, Hget, Hset. done.
Qed.

End Access.

Lemma initData_roundtrip_witness :
  as_array (mkPacked 4 5 6) = take 3 [4; 5; 6; 7] /\
  of_initData [4; 5] = None.
Proof.
  destruct (initData_roundtrip (mkPacked 4 5 6)) as (_ & Htake & Hnone).
  split.
  - apply Htake. reflexivity.
  - apply Hnone. simpl. lia.
Defined.

(** ** Round trip through AZ::Vector3 *)


Example of_Vector3_int32_half :
  of_Vector3 (TYPE := int32) v_half = Some (mkPacked 0 0 0).
Proof. reflexivity. Qed.

Example to_Vector3_int32_zero :
  to_Vector3 (mkPacked (TYPE := int32) 0 0 0) = mkVector3 f_zero f_zero f_zero.
Proof. reflexivity. Qed.

(** C4, as stated, fails for PackedVector3i: the vector (0.5, 0, 0) comes
    back as (0, 0, 0). *)
Lemma roundtrip_int32_counterexample :
  ~ (forall (v : Vector3) (p : PackedVector3 int32),
       of_Vector3 v = Some p -> to_Vector3 p = v).
Proof.
  intros H. specialize (H v_half _ of_Vector3_int32_half).
  discriminate H.
Qed.

Lemma float_exactly_representable (c : float) : exactly_representable float c.
Proof. by exists c. Qed.

Lemma roundtrip_representable {TYPE} `{!Scalar TYPE} (v : Vector3) :
  exactly_representable TYPE (GetX3 v) ->
  exactly_representable TYPE (GetY3 v) ->
  exactly_representable TYPE (GetZ3 v) ->
  exists p : PackedVector3 TYPE, of_Vector3 v = Some p /\ to_Vector3 p = v.
Proof.
  intros (x & Hx & Hx') (y & Hy & Hy') (z & Hz & Hz').
  exists (mkPacked x y z). unfold of_Vector3, to_Vector3.
  rewrite Hx, Hy, Hz. simpl. rewrite Hx', Hy', Hz'. by destruct v.
Qed.

(** C4 (amended): for PackedVector3<float> the round trip gives back every
    vector; for any TYPE it gives back the vectors whose three components
    TYPE holds without loss. *)
Theorem roundtrip_Vector3 :
  (forall v : Vector3,
     exists p : PackedVector3 float, of_Vector3 v = Some p /\ to_Vector3 p = v) /\
  (forall TYPE (S : Scalar TYPE) (v : Vector3),
     exactly_representable TYPE (GetX3 v) ->
     exactly_representable TYPE (GetY3 v) ->
     exactly_representable TYPE (GetZ3 v) ->
     exists p : PackedVector3 TYPE, of_Vector3 v = Some p /\ to_Vector3 p = v).
Proof.
  split.
  - intros v. apply roundtrip_representable; apply float_exactly_representable.
  - intros TYPE S v. apply roundtrip_representable.
Qed.

Lemma roundtrip_Vector3_witness :
  exists p : PackedVector3 int32, of_Vector3 v_ints = Some p /\ to_Vector3 p = v_ints.
Proof.
  apply (proj2 roundtrip_Vector3 int32 _ v_ints).
  - exists 1. split; reflexivity.
  - exists 2. split; reflexivity.
  - exists (-3). split; reflexivity.
Defined.

End PackedVector3Facts.

(* ===================================================================== *)
(** * Properties of static_storage *)
(* ===================================================================== *)

Module StaticStorageFacts.
Import StaticStorage.
#[local] Open Scope nat_scope.

(** ** Sums over the thread list *)

Lemma sum_list_insert {A} (f : A -> nat) (l : list A) j d d' :
  l !! j = Some d ->
  sum_list (f <$> <[j := d']> l) + f d = sum_list (f <$> l) + f d'.
Proof.
  revert j. induction l as [|a l IH]; intros [|j] H; simplify_eq/=.
  - lia.
  - specialize (IH j H). lia.
Qed.

Lemma sum_list_lookup_le {A} (f : A -> nat) (l : list A) j d :
  l !! j = Some d -> f d <= sum_list (f <$> l).
Proof.
  revert j. induction l as [|a l IH]; intros [|j] H; simplify_eq/=.
  - lia.
  - specialize (IH j H). lia.
Qed.

Lemma sum_list_replicate_0 {A} (f : A -> nat) n d :
  f d = 0 -> sum_list (f <$> replicate n d) = 0.
Proof. intros H. induction n as [|n IH]; csimpl; [done|]. by rewrite H, IH. Qed.


Lemma won_split (l : list dtor_pc) :
  sum_list (won <$> l) = sum_list (cleaned <$> l) + sum_list (pending <$> l).
Proof. induction l as [|[] l IH]; csimpl; lia. Qed.


Section Facts.
Context {T : Type}.
Variable storage_addr : nat.
Variable garbage : ptr.
Variable value : T.
Variable Destructor : destructor.

Abbreviation storage := (Addr storage_addr).
Abbreviation step_ := (step storage_addr value Destructor).
Abbreviation exec_ := (exec storage_addr value Destructor).
Abbreviation init_ := (init (T := T) garbage).
Abbreviation storage_as_expected_ := (storage_as_expected value Destructor).
Abbreviation ctor_inv_ := (ctor_inv storage_addr garbage value Destructor).
Abbreviation reader_inv_ := (reader_inv storage_addr garbage).
Abbreviation Inv_ := (Inv storage_addr garbage value Destructor).

Implicit Types (c : config T) (t : tid) (sched : list tid).

(** The uninitialised pointer is not, by accident, the address of the
    storage: "it can only have 1 correct value". *)
Hypothesis garbage_not_storage : garbage <> storage.

(** ** Executions *)

Lemma exec_app s1 s2 c : exec_ (s1 ++ s2) c = exec_ s2 (exec_ s1 c).
Proof. unfold exec. apply foldl_app. Qed.

Lemma exec_snoc sched t c : exec_ (sched ++ [t]) c = step_ t (exec_ sched c).
Proof. by rewrite exec_app. Qed.

(** A property that holds initially and is kept by every step holds
    after every execution. *)
Lemma exec_invariant (P : config T -> Prop) c0 :
  P c0 -> (forall c t, P c -> P (step_ t c)) -> forall sched, P (exec_ sched c0).
Proof.
  intros H0 Hstep sched. induction sched as [|t sched IH] using rev_ind; [done|].
  rewrite exec_snoc. by apply Hstep.
Qed.

(** ** The invariant *)

Lemma cleanups_le_winners c : cleanups c <= winners c.
Proof. unfold cleanups, winners. rewrite won_split. lia. Qed.

Lemma Inv_winners c : Inv_ c -> winners c <= 1.
Proof.
  intros [H _ _ _]. unfold ctor_inv in H.
  destruct (ctor c); destruct_and?; lia.
Qed.

Lemma Inv_object c :
  Inv_ c -> m_object c = garbage \/ m_object c = Null \/ m_object c = storage.
Proof.
  intros [H _ _ _]. unfold ctor_inv in H.
  destruct (ctor c); destruct_and?; auto.
  destruct_or!; destruct_and?; auto.
Qed.

Lemma Inv_published c :
  Inv_ c -> m_object c = storage ->
  ctor c = CtorDone /\ winners c = 0 /\ m_storage c = Constructed value.
Proof.
  intros [H _ _ _] Ho. unfold ctor_inv in H.
  destruct (ctor c); destruct_and?; try congruence.
  destruct_or!; destruct_and?; try congruence.
  split; [done|]. split; [done|].
  match goal with Hs : storage_as_expected_ c |- _ => rewrite Hs end.
  pose proof (cleanups_le_winners c). case_decide; [done | lia].
Qed.

Lemma Inv_init n m : Inv_ (init_ n m).
Proof.
  split; simpl.
  - unfold ctor_inv, winners. simpl. by rewrite sum_list_replicate_0.
  - unfold cleanups. simpl. by rewrite sum_list_replicate_0.
  - intros i r [-> _]%lookup_replicate. done.
  - intros j seen [? _]%lookup_replicate. done.
Qed.

(** ** Every step keeps the invariant *)

Ltac unfold_inv :=
  unfold ctor_inv, storage_as_expected, winners, cleanups in *; simpl in *.

(** Readers when the constructor moves on: none of them holds the storage
    address before the store, so their part of the invariant is kept. *)
Lemma readers_ctor_moved c c' :
  ctor c <> CtorDone -> readers c' = readers c ->
  (forall i r, readers c !! i = Some r -> reader_inv_ c r) ->
  forall i r, readers c' !! i = Some r -> reader_inv_ c' r.
Proof.
  intros Hpc -> Hr i r Hi. specialize (Hr i r Hi).
  destruct r as [|obj|obj]; simpl in *.
  - done.
  - destruct Hr as [Hv Hd]. split; [done|]. intros Ho. by destruct Hpc; apply Hd.
  - by destruct Hr as [_ Hd].
Qed.

Lemma Inv_ctor_step c : Inv_ c -> Inv_ (ctor_step storage_addr value c).
Proof.
  intros HI. pose proof (cleanups_le_winners c) as Hle.
  destruct HI as [Hc Hd Hr Hs].
  unfold ctor_step. destruct (ctor c) eqn:Hpc; [| | |by split];
    (split; [| exact Hd | apply (readers_ctor_moved c); (done || congruence)
             | exact Hs]).
  - unfold_inv. rewrite Hpc in Hc. destruct Hc as (_ & -> & ? & ?). done.
  - unfold_inv. rewrite Hpc in Hc. destruct Hc as (_ & ? & ? & ?). done.
  - unfold_inv. rewrite Hpc in Hc. destruct Hc as (Hst & ? & ? & Hw).
    split; [done|]. split; [|by left].
    rewrite Hst. case_decide; [done | lia].
Qed.

Lemma Inv_reader_step i c : Inv_ c -> Inv_ (reader_step storage_addr i c).
Proof.
  intros HI. pose proof HI as [Hc Hd Hr Hs].
  unfold reader_step. destruct (readers c !! i) as [r|] eqn:Hi; [|done].
  split; [exact Hc | exact Hd | | exact Hs].
  intros i' r'. simpl. destruct (decide (i = i')) as [<-|Hne].
  - rewrite list_lookup_insert_eq by (by eapply lookup_lt_Some).
    intros [= <-]. specialize (Hr i r Hi). destruct r; simpl.
    + split; [by apply Inv_object|]. intros Ho. by apply Inv_published.
    + case_decide as Ho; [|done]. destruct Hr as [_ Hdone]. split; [done|].
      by apply Hdone.
    + exact Hr.
  - rewrite list_lookup_insert_ne by done. apply Hr.
Qed.

Lemma Inv_dtor_step j c : Inv_ c -> Inv_ (dtor_step storage_addr Destructor j c).
Proof.
  intros HI. pose proof (Inv_winners c HI) as Hw1.
  pose proof (won_split (dtors c)) as Hsplit.
  pose proof HI as [Hc Hd Hr Hs].
  unfold dtor_step. destruct (dtors c !! j) as [d|] eqn:Hj; [|done].
  pose proof (sum_list_insert won (dtors c) j d) as Hwon.
  pose proof (sum_list_insert cleaned (dtors c) j d) as Hcl.
  destruct d; [| |done|done].
  - (* the compare-and-swap *)
    case_decide as Ho.
    + destruct (Inv_published c HI Ho) as (Hpc & Hw0 & Hst).
      specialize (Hwon DWon Hj). specialize (Hcl DWon Hj).
      split; [| | exact Hr |].
      * unfold_inv. rewrite Hpc in *. destruct Hc as (? & _ & _).
        split; [done|]. split; [|right; split; [done | lia]].
        rewrite Hst. case_decide; [done | lia].
      * unfold_inv. lia.
      * intros j' seen. simpl. destruct (decide (j = j')) as [<-|Hne].
        -- rewrite list_lookup_insert_eq by (by eapply lookup_lt_Some). done.
        -- rewrite list_lookup_insert_ne by done. apply Hs.
    + specialize (Hwon (DSkipped (m_object c)) Hj).
      specialize (Hcl (DSkipped (m_object c)) Hj).
      assert (sum_list (won <$> <[j := DSkipped (m_object c)]> (dtors c))
              = winners c) as Hw' by (unfold winners; simpl in *; lia).
      assert (sum_list (cleaned <$> <[j := DSkipped (m_object c)]> (dtors c))
              = cleanups c) as Hc' by (unfold cleanups; simpl in *; lia).
      split; [| | exact Hr |].
      * unfold ctor_inv, storage_as_expected, winners, cleanups. simpl.
        rewrite Hw', Hc'. exact Hc.
      * unfold cleanups at 1. simpl. by rewrite Hc'.
      * intros j' seen. simpl. destruct (decide (j = j')) as [<-|Hne].
        -- rewrite list_lookup_insert_eq by (by eapply lookup_lt_Some).
           by intros [= <-].
        -- rewrite list_lookup_insert_ne by done. apply Hs.
  - (* the call of Destructor() by the winner *)
    specialize (Hwon DCleaned Hj). specialize (Hcl DCleaned Hj).
    pose proof (sum_list_lookup_le pending (dtors c) j DWon Hj) as Hp.
    split; [| | exact Hr |].
    + unfold_inv.
      destruct (ctor c); destruct_and?; try lia.
      split; [done|]. split.
      * match goal with Hst : m_storage c = _ |- _ => rewrite Hst end.
        repeat case_decide; (done || lia).
      * destruct_or!; destruct_and?; [lia|]. right. split; [done | lia].
    + unfold_inv. lia.
    + intros j' seen. simpl. destruct (decide (j = j')) as [<-|Hne].
      * rewrite list_lookup_insert_eq by (by eapply lookup_lt_Some). done.
      * rewrite list_lookup_insert_ne by done. apply Hs.
Qed.

Lemma Inv_step c t : Inv_ c -> Inv_ (step_ t c).
Proof.
  destruct t; simpl;
    [apply Inv_ctor_step | apply Inv_reader_step | apply Inv_dtor_step].
Qed.

Lemma Inv_exec n m sched : Inv_ (exec_ sched (init_ n m)).
Proof. apply exec_invariant; [apply Inv_init | apply Inv_step]. Qed.

(** ** Shape of a configuration along an execution *)

Lemma step_lengths c t :
  length (readers (step_ t c)) = length (readers c) /\
  length (dtors (step_ t c)) = length (dtors c).
Proof.
  destruct t as [|i|j]; simpl.
  - unfold ctor_step. by destruct (ctor c).
  - unfold reader_step. destruct (readers c !! i); simpl; by rewrite ?length_insert.
  - unfold dtor_step. destruct (dtors c !! j) as [[]|]; try case_decide; simpl;
      by rewrite ?length_insert.
Qed.

Lemma exec_lengths n m sched :
  length (readers (exec_ sched (init_ n m))) = n /\
  length (dtors (exec_ sched (init_ n m))) = m.
Proof.
  apply (exec_invariant (fun c => length (readers c) = n /\ length (dtors c) = m)).
  - simpl. by rewrite !length_replicate.
  - intros c t [Hr Hd]. destruct (step_lengths c t) as [-> ->]. done.
Qed.


Lemma step_ctor c t :
  ctor (step_ t c) = match t with TCtor => ctor_next (ctor c) | _ => ctor c end.
Proof.
  destruct t as [|i|j]; simpl.
  - unfold ctor_step. by destruct (ctor c) eqn:Hpc; simpl; rewrite ?Hpc.
  - unfold reader_step. by destruct (readers c !! i).
  - unfold dtor_step. destruct (dtors c !! j) as [[]|]; try case_decide; done.
Qed.

Lemma exec_ctor sched c :
  ctor (exec_ sched c) = Nat.iter (ctor_steps sched) ctor_next (ctor c).
Proof.
  revert c. induction sched as [|t sched IH]; intros c; [done|].
  change (exec_ (t :: sched) c) with (exec_ sched (step_ t c)).
  rewrite IH, step_ctor. destruct t; simpl; [|done|done].
  by rewrite <- Nat.iter_succ_r.
Qed.

Lemma ctor_next_iter_started k : Nat.iter (S k) ctor_next CtorStart <> CtorStart.
Proof. simpl. by destruct (Nat.iter k ctor_next CtorStart). Qed.

Lemma ctor_next_iter_done k : Nat.iter (3 + k) ctor_next CtorStart = CtorDone.
Proof. induction k as [|k IH]; [done|]. rewrite Nat.add_succ_r. simpl in *. by rewrite IH. Qed.

Lemma exec_ctor_started n m sched :
  1 <= ctor_steps sched -> ctor (exec_ sched (init_ n m)) <> CtorStart.
Proof.
  intros H. rewrite exec_ctor. simpl.
  destruct (ctor_steps sched) as [|k]; [lia|]. apply ctor_next_iter_started.
Qed.

Lemma exec_ctor_done n m sched :
  3 <= ctor_steps sched -> ctor (exec_ sched (init_ n m)) = CtorDone.
Proof.
  intros H. rewrite exec_ctor. simpl.
  replace (ctor_steps sched) with (3 + (ctor_steps sched - 3)) by lia.
  apply ctor_next_iter_done.
Qed.

(** ** The spin loop *)

Lemma reader_spins c i :
  readers c !! i = Some RdLoad -> m_object c <> storage ->
  readers (step_ (TReader i) c) !! i = Some (RdTest (m_object c)) /\
  step_ (TReader i) (step_ (TReader i) c) = c.
Proof.
  intros Hi Ho. pose proof (lookup_lt_Some _ _ _ Hi) as Hlt.
  assert (readers (step_ (TReader i) c) !! i = Some (RdTest (m_object c))) as H1.
  { simpl. unfold reader_step. rewrite Hi. simpl. by rewrite list_lookup_insert_eq. }
  split; [done|].
  simpl in *. unfold reader_step at 1. rewrite H1.
  unfold reader_step. rewrite Hi. simpl.
  rewrite decide_False by done.
  rewrite list_insert_insert_eq, list_insert_id by done. by destruct c.
Qed.

Lemma reader_returns c i :
  readers c !! i = Some RdLoad -> m_object c = storage ->
  readers (step_ (TReader i) (step_ (TReader i) c)) !! i = Some (RdRet storage).
Proof.
  intros Hi Ho. pose proof (lookup_lt_Some _ _ _ Hi) as Hlt.
  simpl. unfold reader_step at 2. rewrite Hi.
  unfold reader_step. simpl. rewrite list_lookup_insert_eq by done. simpl.
  rewrite Ho, decide_True by done.
  by rewrite list_lookup_insert_eq by (by rewrite length_insert).
Qed.

(** ** Teardown *)



Lemma cas_fails c j :
  dtors c !! j = Some DStart -> m_object c <> storage ->
  dtors (step_ (TDtor j) c) !! j = Some (DSkipped (m_object c)) /\
  m_object (step_ (TDtor j) c) = m_object c /\
  m_storage (step_ (TDtor j) c) = m_storage c /\
  dtor_calls (step_ (TDtor j) c) = dtor_calls c /\
  step_ (TDtor j) (step_ (TDtor j) c) = step_ (TDtor j) c.
Proof.
  intros Hj Ho. pose proof (lookup_lt_Some _ _ _ Hj) as Hlt.
  assert (step_ (TDtor j) c =
          mkConfig (m_storage c) (m_object c) (ctor_calls c) (dtor_calls c)
                   (ctor c) (readers c)
                   (<[j := DSkipped (m_object c)]> (dtors c))) as ->.
  { simpl. unfold dtor_step. by rewrite Hj, decide_False. }
  simpl. unfold dtor_step. simpl. by rewrite list_lookup_insert_eq.
Qed.







Lemma Inv_done_complete c : Inv_ c -> ctor c = CtorDone -> construction_complete c.
Proof.
  intros HI Hpc. pose proof (inv_ctor c HI) as Hc.
  unfold ctor_inv in Hc. rewrite Hpc in Hc. destruct Hc as (_ & Hst & _).
  unfold construction_complete. rewrite Hst.
  case_decide; [done|]. by destruct Destructor.
Qed.

Lemma Inv_ctor_calls c :
  Inv_ c -> ctor_calls c <= 1 /\ (ctor c <> CtorStart -> ctor_calls c = 1).
Proof.
  intros HI. pose proof (inv_ctor c HI) as Hc. unfold ctor_inv in Hc.
  destruct (ctor c); destruct_and?; split; (done || lia).
Qed.

(** ** What the invariant gives *)


(** Construction, publication and the spin loop. *)
Lemma construction_safety n m sched :
  let c := exec_ sched (init_ n m) in
  ctor_calls c <= 1 /\
  (1 <= ctor_steps sched -> ctor_calls c = 1) /\
  (3 <= ctor_steps sched -> ctor c = CtorDone) /\
  (ctor c = CtorDone ->
     construction_complete c /\
     (winners c = 0 -> m_object c = storage /\ fully_constructed value c)) /\
  (forall i obj, readers c !! i = Some (RdRet obj) ->
     obj = storage /\ ctor c = CtorDone /\ ctor_calls c = 1) /\
  (forall i, readers c !! i = Some RdLoad -> m_object c <> storage ->
     readers (step_ (TReader i) c) !! i = Some (RdTest (m_object c)) /\
     step_ (TReader i) (step_ (TReader i) c) = c) /\
  (forall i, readers c !! i = Some RdLoad -> m_object c = storage ->
     readers (step_ (TReader i) (step_ (TReader i) c)) !! i = Some (RdRet storage) /\
     fully_constructed value c).
Proof.
  intros c. pose proof (Inv_exec n m sched) as HI. fold c in HI.
  destruct (Inv_ctor_calls c HI) as [Hle Hone].
  split; [done|].
  split; [intros H; by apply Hone, exec_ctor_started|].
  split; [by apply exec_ctor_done|].
  split; [|split; [|split]].
  - intros Hpc. split; [by apply Inv_done_complete|]. intros Hw.
    pose proof (inv_ctor c HI) as Hc. unfold ctor_inv in Hc. rewrite Hpc in Hc.
    destruct Hc as (_ & _ & [[Ho _]|[_ ?]]); [|lia].
    split; [done|]. by apply Inv_published.
  - intros i obj Hi. destruct (inv_readers c HI i _ Hi) as [-> Hpc].
    split; [done|]. split; [done|]. apply Hone. by rewrite Hpc.
  - intros i. apply reader_spins.
  - intros i Hi Ho. split; [by apply reader_returns | by apply Inv_published].
Qed.





(** ** Further properties of teardown and of the spin loop *)







(** A teardown thread that has returned stays as it is. *)
Lemma dtor_finished_step c t j d :
  dtors c !! j = Some d -> dtor_finished d = true ->
  dtors (step_ t c) !! j = Some d.
Proof.
  intros Hj Hfin. destruct t as [|i|j']; simpl.
  - unfold ctor_step. by destruct (ctor c).
  - unfold reader_step. by destruct (readers c !! i).
  - unfold dtor_step. destruct (decide (j' = j)) as [->|Hne].
    + rewrite Hj. by destruct d.
    + destruct (dtors c !! j') as [[]|]; try case_decide; simpl;
        by rewrite ?list_lookup_insert_ne.
Qed.

(** X7: Provided the memory of m_object did not hold the address of the
    storage before the constructor's store, an attempt at teardown made
    before the constructor has published the pointer does nothing: its
    compare-and-swap fails, pointer and storage are left as they were,
    and the thread returns for good without calling the Destructor; when
    it was the only attempt, the object that is constructed afterwards is
    never destroyed. *)
Theorem premature_teardown_is_skipped n m s1 s2 j :
  let c1 := exec_ s1 (init_ n m) in
  let c2 := exec_ (s1 ++ TDtor j :: s2) (init_ n m) in
  ctor c1 <> CtorDone -> dtors c1 !! j = Some DStart ->
  m_object (step_ (TDtor j) c1) = m_object c1 /\
  m_storage (step_ (TDtor j) c1) = m_storage c1 /\
  winners (step_ (TDtor j) c1) = winners c1 /\
  dtors c2 !! j = Some (DSkipped garbage) /\
  (m = 1 -> dtor_calls c2 = 0).
Proof.
  intros c1 c2 Hpc Hj. pose proof (Inv_exec n m s1) as HI1. fold c1 in HI1.
  assert (m_object c1 = garbage) as Ho.
  { pose proof (inv_ctor c1 HI1) as Hc. unfold ctor_inv in Hc.
    destruct (ctor c1); destruct_and?; done. }
  assert (m_object c1 <> storage) as Hne by (by rewrite Ho).
  destruct (cas_fails c1 j Hj Hne) as (Hj' & Ho' & Hs' & _).
  assert (dtors c2 !! j = Some (DSkipped garbage)) as Hj2.
  { unfold c2. rewrite exec_app.
    change (exec_ (TDtor j :: s2) (exec_ s1 (init_ n m)))
      with (exec_ s2 (step_ (TDtor j) c1)).
    apply (exec_invariant (fun c => dtors c !! j = Some (DSkipped garbage))).
    - by rewrite <- Ho.
    - intros c t Hc. by apply dtor_finished_step. }
  split; [done|]. split; [done|]. split.
  { simpl. unfold dtor_step. rewrite Hj, decide_False by done.
    unfold winners. simpl.
    pose proof (sum_list_insert won (dtors c1) j DStart
                  (DSkipped (m_object c1)) Hj) as Hsum.
    simpl in Hsum. lia. }
  split; [done|].
  intros ->. pose proof (Inv_exec n 1 (s1 ++ TDtor j :: s2)) as HI2. fold c2 in HI2.
  rewrite (inv_dtor_calls c2 HI2). unfold cleanups.
  destruct (exec_lengths n 1 (s1 ++ TDtor j :: s2)) as [_ Hlen]. fold c2 in Hlen.
  destruct (dtors c2) as [|d [|d' ds]]; simplify_eq/=.
  destruct j; simplify_eq/=. done.
Qed.

(** Each step of a teardown thread brings it one program point further. *)
Lemma dtor_rank_step c t j d :
  dtors c !! j = Some d ->
  exists d', dtors (step_ t c) !! j = Some d' /\
    (dtor_rank d + (if decide (t = TDtor j) then 1 else 0)) `min` 2 <= dtor_rank d'.
Proof.
  intros Hj. pose proof (lookup_lt_Some _ _ _ Hj) as Hlt.
  destruct t as [|i|j']; unfold step.
  - exists d. rewrite decide_False by done. split; [|lia].
    unfold ctor_step. by destruct (ctor c).
  - exists d. rewrite decide_False by done. split; [|lia].
    unfold reader_step. by destruct (readers c !! i).
  - destruct (decide (j' = j)) as [->|Hne].
    + rewrite decide_True by done. unfold dtor_step. rewrite Hj.
      destruct d; try case_decide; simpl;
        rewrite ?list_lookup_insert_eq by done; eexists; (split; [done|]);
        simpl; lia.
    + rewrite decide_False by congruence. exists d. split; [|lia].
      unfold dtor_step.
      destruct (dtors c !! j') as [[]|]; try case_decide; simpl;
        by rewrite ?list_lookup_insert_ne.
Qed.

Lemma dtor_rank_exec sched c j d :
  dtors c !! j = Some d ->
  exists d', dtors (exec_ sched c) !! j = Some d' /\
    (dtor_rank d + steps_of (TDtor j) sched) `min` 2 <= dtor_rank d'.
Proof.
  revert c d. induction sched as [|t sched IH]; intros c d Hj.
  - exists d. split; [done|]. simpl. lia.
  - destruct (dtor_rank_step c t j d Hj) as (d1 & Hj1 & Hr1).
    destruct (IH _ _ Hj1) as (d2 & Hj2 & Hr2).
    exists d2. split; [done|]. simpl. case_decide; lia.
Qed.

(** X8: Teardown never waits: whatever the other threads do, a teardown
    thread has returned after two steps of its own. *)
Theorem teardown_is_wait_free n m sched j :
  j < m -> 2 <= steps_of (TDtor j) sched ->
  exists d, dtors (exec_ sched (init_ n m)) !! j = Some d /\
            dtor_finished d = true.
Proof.
  intros Hj Hsteps.
  assert (dtors (init_ n m) !! j = Some DStart) as H0.
  { simpl. by apply lookup_replicate_2. }
  destruct (dtor_rank_exec sched _ j _ H0) as (d & Hd & Hr).
  exists d. split; [done|]. simpl in Hr. destruct d; simpl in *; (done || lia).
Qed.





(** X10: The class relies on the memory of m_object not holding the address of
    the storage before the constructor runs: when it does, a reader
    returns after its first load, with a reference to storage in which
    no object has been constructed. *)
Theorem stale_pointer_hazard n m i :
  i < n ->
  let c := exec_ [TReader i; TReader i] (init (T := T) storage n m) in
  readers c !! i = Some (RdRet storage) /\
  m_storage c = Raw /\
  ctor_calls c = 0.
Proof.
  intros Hi c.
  assert (readers (init (T := T) storage n m) !! i = Some RdLoad) as H0.
  { simpl. by apply lookup_replicate_2. }
  split; [by apply (reader_returns (init storage n m) i)|].
  assert (forall c0 : config T,
            m_storage (step_ (TReader i) c0) = m_storage c0 /\
            ctor_calls (step_ (TReader i) c0) = ctor_calls c0) as Hkeep.
  { intros c0. simpl. unfold reader_step. by destruct (readers c0 !! i). }
  unfold c.
  change (exec_ [TReader i; TReader i] (init storage n m))
    with (step_ (TReader i) (step_ (TReader i) (init (T := T) storage n m))).
  destruct (Hkeep (step_ (TReader i) (init storage n m))) as [-> ->].
  by destruct (Hkeep (init storage n m)) as [-> ->].
Qed.

End Facts.

(** ** The three properties of the specification

    What holds of every instance is stated as it is; what relies on the
    memory of m_object not holding the address of the storage before the
    constructor's store is stated under that proviso. *)

Section Properties.
Context {T : Type}.
Variable storage_addr : nat.
Variable garbage : ptr.
Variable value : T.
Variable Destructor : destructor.

Abbreviation storage := (Addr storage_addr).
Abbreviation step_ := (step storage_addr value Destructor).
Abbreviation exec_ := (exec storage_addr value Destructor).
Abbreviation init_ := (init (T := T) garbage).
Abbreviation callers_exec_ := (callers_exec storage_addr value Destructor).
Abbreviation callers_step_ := (callers_step storage_addr value Destructor).
Abbreviation callers_init_ := (callers_init (T := T) garbage).
Abbreviation pointer_value_ := (pointer_value storage_addr garbage).
Abbreviation reader_value_ := (reader_value storage_addr garbage).

Implicit Types (c : config T) (cs : callers T) (t : tid) (sched : list tid).

(** *** The values of the pointer, in every instance *)




(** *** Construction *)

Lemma step_ctor_calls c t :
  ctor_calls (step_ t c) + started (ctor c) =
  ctor_calls c + started (ctor (step_ t c)).
Proof.
  destruct t as [|i|j]; simpl.
  - unfold ctor_step. destruct (ctor c) eqn:Hpc; simpl; rewrite ?Hpc; simpl; lia.
  - unfold reader_step. by destruct (readers c !! i).
  - unfold dtor_step. destruct (dtors c !! j) as [[]|]; try case_decide; done.
Qed.

Lemma callers_step_started cs (t : caller_tid) :
  ctor_calls (base cs) = invocations_started cs ->
  ctor_calls (base (callers_step_ t cs)) =
    invocations_started (callers_step_ t cs).
Proof.
  unfold invocations_started. intros H. destruct t as [t|k]; simpl.
  - pose proof (step_ctor_calls (base cs) t). lia.
  - unfold extra_ctor_step. destruct (extra_ctors cs !! k) as [pc|] eqn:Hk; [|done].
    simpl.
    pose proof (step_ctor_calls (with_ctor pc (base cs)) TCtor) as Hstep.
    pose proof (sum_list_insert started (extra_ctors cs) k pc
                  (ctor (ctor_step storage_addr value (with_ctor pc (base cs)))) Hk).
    simpl in Hstep. lia.
Qed.

Lemma callers_exec_started n m k (csched : list caller_tid) :
  ctor_calls (base (callers_exec_ csched (callers_init_ n m k))) =
    invocations_started (callers_exec_ csched (callers_init_ n m k)).
Proof.
  induction csched as [|t csched IH] using rev_ind.
  - unfold invocations_started. simpl. by rewrite sum_list_replicate_0.
  - unfold callers_exec in *. rewrite foldl_app. simpl.
    by apply callers_step_started.
Qed.

Lemma callers_exec_base sched cs :
  callers_exec_ (TBase <$> sched) cs =
    mkCallers (exec_ sched (base cs)) (extra_ctors cs).
Proof.
  revert cs. induction sched as [|t sched IH]; intros cs; [by destruct cs|].
  change (callers_exec_ (TBase <$> t :: sched) cs)
    with (callers_exec_ (TBase <$> sched) (callers_step_ (TBase t) cs)).
  by rewrite IH.
Qed.

Lemma ctor_calls_started n m sched :
  ctor_calls (exec_ sched (init_ n m)) = started (ctor (exec_ sched (init_ n m))).
Proof.
  pose proof (callers_exec_started n m 0 (TBase <$> sched)) as H.
  rewrite callers_exec_base in H. unfold invocations_started in H.
  simpl in H. lia.
Qed.

(** C3 (amended): each invocation of the constructor of static_storage
    constructs the wrapped T once, in place in the reserved storage, and
    then publishes the pointer; operator T& and the destructor never
    construct, and the class does not choose which caller constructs.
    When the constructor is invoked once, T is constructed exactly once
    whatever the number of threads that access the value, and the
    constructor has published after three steps of its own; the other
    callers spin on the atomic load, without blocking, while the pointer
    is not the address of the storage.  Provided the memory of m_object
    did not hold that address before the store, they return only after
    the publication, with the fully constructed object. *)
Theorem single_construction n m :
  (forall k (csched : list caller_tid),
     ctor_calls (base (callers_exec_ csched (callers_init_ n m k))) =
       invocations_started (callers_exec_ csched (callers_init_ n m k))) /\
  (forall sched,
     callers_exec_ (TBase <$> sched) (callers_init_ n m 0) =
       mkCallers (exec_ sched (init_ n m)) []) /\
  (forall sched,
     let c := exec_ sched (init_ n m) in
     ctor_calls c <= 1 /\
     (1 <= ctor_steps sched -> ctor_calls c = 1) /\
     (3 <= ctor_steps sched -> ctor c = CtorDone) /\
     (forall i, readers c !! i = Some RdLoad -> m_object c <> storage ->
        readers (step_ (TReader i) c) !! i = Some (RdTest (m_object c)) /\
        step_ (TReader i) (step_ (TReader i) c) = c) /\
     (garbage <> storage ->
        (ctor c = CtorDone ->
           construction_complete c /\
           (winners c = 0 -> m_object c = storage /\ fully_constructed value c)) /\
        (forall i obj, readers c !! i = Some (RdRet obj) ->
           obj = storage /\ ctor c = CtorDone /\ ctor_calls c = 1) /\
        (forall i, readers c !! i = Some RdLoad -> m_object c = storage ->
           readers (step_ (TReader i) (step_ (TReader i) c)) !! i
             = Some (RdRet storage) /\
           fully_constructed value c))).
Proof.
  split; [intros k csched; apply callers_exec_started|].
  split; [intros sched; apply callers_exec_base|].
  intros sched c. pose proof (ctor_calls_started n m sched) as Hcalls.
  fold c in Hcalls.
  split; [rewrite Hcalls; by destruct (ctor c); simpl; lia|].
  split.
  { intros Hsteps. rewrite Hcalls.
    pose proof (exec_ctor_started storage_addr garbage value Destructor
                  n m sched Hsteps) as Hpc.
    fold c in Hpc. by destruct (ctor c). }
  split; [by apply exec_ctor_done|].
  split; [intros i; apply reader_spins|].
  intros Hg.
  destruct (construction_safety storage_addr garbage value Destructor Hg n m sched)
    as (_ & _ & _ & Hdone & Hret & _ & Hnext).
  done.
Qed.

(** *** Teardown *)


End Properties.

(** ** Concrete runs *)


Example demo_run_end :
  demo_run demo_sched =
  mkConfig Destroyed Null 1 1 CtorDone
           [RdRet (Addr 1); RdTest Null] [DSkipped Null; DCleaned].
Proof. reflexivity. Qed.

(** A reader that loads the pointer between the placement new and the
    store keeps spinning. *)
Example demo_reader_waits :
  readers (demo_run [TCtor; TCtor; TReader 0; TReader 0]) !! 0 = Some RdLoad.
Proof. reflexivity. Qed.

(** With an uninitialised pointer that holds 7, the first load of a reader
    observes 7, which is neither null nor the address of the storage. *)
Example garbage_is_observed :
  readers (exec 1 42 default_destruct [TReader 0] (init (Addr 7) 1 0)) !! 0
  = Some (RdTest (Addr 7)).
Proof. reflexivity. Qed.



(** C3, as stated, fails.  Two callers that both run the constructor
    construct T twice, and a caller that returned after the first
    publication holds the storage while the second construction is under
    way.  And when the memory of the pointer happens to hold the address
    of the storage, a caller returns although T was never constructed. *)
Lemma construction_counterexample :
  (let cs := callers_exec 1 42 default_destruct
               [TBase TCtor; TBase TCtor; TBase TCtor;
                TBase (TReader 0); TBase (TReader 0); TExtraCtor 0]
               (callers_init Null 1 0 1) in
   ctor_calls (base cs) = 2 /\
   readers (base cs) !! 0 = Some (RdRet (Addr 1)) /\
   m_storage (base cs) = Partial) /\
  (let c := exec 1 42 default_destruct [TReader 0; TReader 0]
              (init (Addr 1) 1 0) in
   ctor_calls c = 0 /\
   readers c !! 0 = Some (RdRet (Addr 1)) /\
   m_storage c = Raw).
Proof. vm_compute. auto. Qed.

Lemma single_construction_witness :
  ctor_calls (demo_run demo_sched) = 1 /\
  ctor (demo_run demo_sched) = CtorDone /\
  (forall i obj, readers (demo_run demo_sched) !! i = Some (RdRet obj) ->
     obj = Addr 1).
Proof.
  pose proof (single_construction 1 Null 42 default_destruct 2 2)
    as (_ & _ & Hone).
  destruct (Hone demo_sched) as (_ & Hcalls & Hdone & _ & Hsafe).
  destruct (Hsafe ltac:(discriminate)) as (_ & Hret & _).
  unfold demo_run.
  split; [apply Hcalls; vm_compute; lia|].
  split; [apply Hdone; vm_compute; lia|].
  intros i obj Hi. exact (proj1 (Hret i obj Hi)).
Defined.






Lemma premature_teardown_is_skipped_witness :
  dtor_calls (exec 1 42 default_destruct
                ([TCtor] ++ TDtor 0 :: [TCtor; TCtor; TDtor 0; TDtor 0])
                (init Null 1 1)) = 0.
Proof.
  destruct (premature_teardown_is_skipped 1 Null 42 default_destruct
              ltac:(discriminate) 1 1 [TCtor] [TCtor; TCtor; TDtor 0; TDtor 0] 0
              ltac:(discriminate) eq_refl) as (_ & _ & _ & _ & Hleak).
  by apply Hleak.
Defined.

Lemma teardown_is_wait_free_witness :
  exists d, dtors (demo_run [TDtor 1; TReader 0; TCtor; TDtor 1]) !! 1 = Some d /\
            dtor_finished d = true.
Proof.
  apply (teardown_is_wait_free 1 Null 42 default_destruct 2 2
           [TDtor 1; TReader 0; TCtor; TDtor 1] 1); simpl; lia.
Defined.


Lemma stale_pointer_hazard_witness :
  readers (exec 1 42 default_destruct [TReader 0; TReader 0] (init (Addr 1) 1 0))
    !! 0 = Some (RdRet (Addr 1)).
Proof.
  destruct (stale_pointer_hazard 1 42 default_destruct 1 0 0 ltac:(lia))
    as [Hret _].
  exact Hret.
Defined.

End StaticStorageFacts.

(* ===================================================================== *)
(** * Properties of AnimGraphOptions *)
(* ===================================================================== *)

Module AnimGraphOptionsFacts.
Import AnimGraphOptions.

Lemma option_names_differ : s_graphAnimationOptionName <> s_showFPSOptionName.
Proof. discriminate. Qed.

Lemma value_setValue_eq key v (settings : QSettings) :
  value key (setValue key v settings) = v.
Proof. unfold value, setValue. by rewrite lookup_insert_eq. Qed.

Lemma value_setValue_ne key key' v (settings : QSettings) :
  key <> key' -> value key' (setValue key v settings) = value key' settings.
Proof. intros Hne. unfold value, setValue. by rewrite lookup_insert_ne. Qed.

Lemma value_absent key (settings : QSettings) :
  settings !! key = None -> isNull (value key settings) = true.
Proof. intros H. unfold value. by rewrite H. Qed.

Lemma Save_lookup_graphAnimation o (settings : QSettings) :
  Save o settings !! s_graphAnimationOptionName = Some (QBool (m_graphAnimation o)).
Proof.
  unfold Save, setValue.
  rewrite lookup_insert_ne by (symmetry; apply option_names_differ).
  apply lookup_insert_eq.
Qed.

Lemma Save_lookup_showFPS o (settings : QSettings) :
  Save o settings !! s_showFPSOptionName = Some (QBool (m_showFPS o)).
Proof. unfold Save, setValue. apply lookup_insert_eq. Qed.

Lemma Save_lookup_other o (settings : QSettings) key :
  key <> s_graphAnimationOptionName -> key <> s_showFPSOptionName ->
  Save o settings !! key = settings !! key.
Proof.
  intros H1 H2. unfold Save, setValue.
  rewrite !lookup_insert_ne; congruence.
Qed.

Lemma Load_Save o (settings : QSettings) : Load (Save o settings) = o.
Proof.
  unfold Load, value.
  rewrite Save_lookup_graphAnimation, Save_lookup_showFPS. by destruct o.
Qed.

Lemma Load_absent_graphAnimation (settings : QSettings) :
  settings !! s_graphAnimationOptionName = None ->
  m_graphAnimation (Load settings) = true.
Proof.
  intros H. unfold Load. rewrite (value_absent _ _ H). simpl.
  by destruct (isNull _).
Qed.

Lemma Load_absent_showFPS (settings : QSettings) :
  settings !! s_showFPSOptionName = None ->
  m_showFPS (Load settings) = false.
Proof.
  intros H. unfold Load. rewrite (value_absent _ _ H). simpl.
  by destruct (isNull _).
Qed.

(** C5: Save writes exactly the two booleans under the keys
    useGraphAnimation and showFPS; Load of a store just written by Save
    gives back the saved options; a key absent from the store leaves the
    field at its default (graph animation true, show FPS false). *)
Theorem Save_Load_spec (o : AnimGraphOptions) (settings : QSettings) :
  s_graphAnimationOptionName = "useGraphAnimation"%string /\
  s_showFPSOptionName = "showFPS"%string /\
  Save o settings !! s_graphAnimationOptionName = Some (QBool (m_graphAnimation o)) /\
  Save o settings !! s_showFPSOptionName = Some (QBool (m_showFPS o)) /\
  (forall key, key <> s_graphAnimationOptionName -> key <> s_showFPSOptionName ->
     Save o settings !! key = settings !! key) /\
  Load (Save o settings) = o /\
  (settings !! s_graphAnimationOptionName = None ->
     m_graphAnimation (Load settings) = true) /\
  (settings !! s_showFPSOptionName = None ->
     m_showFPS (Load settings) = false).
Proof.
  split; [done|]. split; [done|].
  split; [apply Save_lookup_graphAnimation|].
  split; [apply Save_lookup_showFPS|].
  split; [intros key; apply Save_lookup_other|].
  split; [apply Load_Save|].
  split; [apply Load_absent_graphAnimation | apply Load_absent_showFPS].
Qed.


Lemma Save_Load_spec_witness :
  Load (Save (mkOptions false true) ∅) = mkOptions false true /\
  Save (mkOptions false true) fps_only !! "other"%string = None /\
  Load fps_only = mkOptions true true /\
  m_showFPS (Load ∅) = false.
Proof.
  pose proof (Save_Load_spec (mkOptions false true) ∅)
    as (_ & _ & _ & _ & _ & Hload & _ & Hfps).
  pose proof (Save_Load_spec (mkOptions false true) fps_only)
    as (_ & _ & _ & _ & Hother & _ & Hga & _).
  split; [exact Hload|].
  split; [rewrite Hother by discriminate; reflexivity|].
  split; [|apply Hfps; reflexivity].
  assert (m_graphAnimation (Load fps_only) = true) as Hg
    by (apply Hga; reflexivity).
  reflexivity.
Defined.

(** ** Setters *)

Lemma fired_snoc w o x : fired w (mkWorld o (bus w ++ [x])) = [x].
Proof. unfold fired. simpl. by rewrite drop_app_length. Qed.

Lemma fired_same w : fired w w = [].
Proof. unfold fired. apply drop_all. Qed.

(** C6: SetGraphAnimation(b) (respectively SetShowFPS(b)) leaves the
    targeted field equal to b, leaves the other field unchanged, and sends
    the corresponding change notification if and only if b differs from
    the previous value of the field. *)
Theorem setters_spec (w : world) (b : bool) :
  (m_graphAnimation (options (SetGraphAnimation b w)) = b /\
   m_showFPS (options (SetGraphAnimation b w)) = m_showFPS (options w) /\
   bus (SetGraphAnimation b w) = bus w ++ fired w (SetGraphAnimation b w) /\
   fired w (SetGraphAnimation b w) =
     if bool_decide (b <> m_graphAnimation (options w))
     then [s_graphAnimationOptionName] else []) /\
  (m_showFPS (options (SetShowFPS b w)) = b /\
   m_graphAnimation (options (SetShowFPS b w)) = m_graphAnimation (options w) /\
   bus (SetShowFPS b w) = bus w ++ fired w (SetShowFPS b w) /\
   fired w (SetShowFPS b w) =
     if bool_decide (b <> m_showFPS (options w))
     then [s_showFPSOptionName] else []).
Proof.
  destruct w as [[ga fps] evs]. split.
  - unfold SetGraphAnimation, OnGraphAnimationChangedCallback, fired.
    destruct b, ga; simpl; rewrite ?drop_app_length, ?drop_all, ?app_nil_r; done.
  - unfold SetShowFPS, OnShowFPSChangedCallback, fired.
    destruct b, fps; simpl; rewrite ?drop_app_length, ?drop_all, ?app_nil_r; done.
Qed.

Example setters_run :
  bus (SetShowFPS true (SetGraphAnimation true (SetGraphAnimation false
         (mkWorld new [])))) =
  [s_graphAnimationOptionName; s_graphAnimationOptionName; s_showFPSOptionName].
Proof. reflexivity. Qed.

Example setter_same_value_is_silent :
  SetGraphAnimation true (mkWorld new []) = mkWorld new [].
Proof. reflexivity. Qed.

(** ** Assignment and repeated setters *)

(** X11: operator= copies both fields through the setters: afterwards the
    options equal the assigned ones, and the notifications sent are, in
    this order, the one for graph animation if that field changed and the
    one for show FPS if that field changed; assigning equal options
    changes nothing and sends nothing. *)
Theorem assign_spec (other : AnimGraphOptions) (w : world) :
  options (assign other w) = other /\
  bus (assign other w) = bus w ++ fired w (assign other w) /\
  fired w (assign other w) =
    (if bool_decide (m_graphAnimation other <> m_graphAnimation (options w))
     then [s_graphAnimationOptionName] else []) ++
    (if bool_decide (m_showFPS other <> m_showFPS (options w))
     then [s_showFPSOptionName] else []) /\
  (options w = other -> assign other w = w).
Proof.
  destruct w as [[ga fps] evs], other as [ga' fps'].
  unfold assign, SetShowFPS, SetGraphAnimation, fired,
    OnGraphAnimationChangedCallback, OnShowFPSChangedCallback,
    GetGraphAnimation, GetShowFPS.
  destruct ga, fps, ga', fps'; simpl;
    rewrite <- ?app_assoc, ?drop_app_length, ?drop_all, ?app_nil_r;
    repeat split; done.
Qed.

Lemma assign_spec_witness :
  assign (mkOptions false true) (mkWorld new []) =
    mkWorld (mkOptions false true)
            [s_graphAnimationOptionName; s_showFPSOptionName] /\
  assign new (mkWorld new ["earlier"%string]) = mkWorld new ["earlier"%string].
Proof.
  destruct (assign_spec new (mkWorld new ["earlier"%string]))
    as (_ & _ & _ & Hsame).
  split; [reflexivity | by apply Hsame].
Defined.

(** X12: Calling a setter again with the same value is silent and changes
    nothing; the two setters act on different fields, so in either order
    they leave the same options. *)
Theorem setters_idempotent_independent (w : world) (a b : bool) :
  SetGraphAnimation a (SetGraphAnimation a w) = SetGraphAnimation a w /\
  SetShowFPS b (SetShowFPS b w) = SetShowFPS b w /\
  options (SetGraphAnimation a (SetShowFPS b w)) = mkOptions a b /\
  options (SetShowFPS b (SetGraphAnimation a w)) = mkOptions a b.
Proof.
  destruct w as [[ga fps] evs].
  unfold SetShowFPS, SetGraphAnimation, OnGraphAnimationChangedCallback,
    OnShowFPSChangedCallback.
  destruct a, b, ga, fps; simpl; done.
Qed.

(** ** The store after Save *)

Lemma Save_Save o1 o2 (settings : QSettings) :
  Save o2 (Save o1 settings) = Save o2 settings.
Proof.
  apply map_eq. intros key.
  destruct (decide (key = s_graphAnimationOptionName)) as [->|Hga].
  { by rewrite !Save_lookup_graphAnimation. }
  destruct (decide (key = s_showFPSOptionName)) as [->|Hfps].
  { by rewrite !Save_lookup_showFPS. }
  by rewrite !Save_lookup_other.
Qed.

Lemma Load_local (s s' : QSettings) :
  s !! s_graphAnimationOptionName = s' !! s_graphAnimationOptionName ->
  s !! s_showFPSOptionName = s' !! s_showFPSOptionName ->
  Load s = Load s'.
Proof. intros H1 H2. unfold Load, value. by rewrite H1, H2. Qed.

(** X13: A later Save overwrites an earlier one (only the last saved options
    remain), Save adds the two keys to the store and removes none, Load
    looks at nothing but the two keys, and an empty store loads as the
    default options. *)
Theorem Save_Load_algebra (o1 o2 : AnimGraphOptions) (s s' : QSettings) :
  Save o2 (Save o1 s) = Save o2 s /\
  dom (Save o1 s) = {[s_graphAnimationOptionName; s_showFPSOptionName]} ∪ dom s /\
  (s !! s_graphAnimationOptionName = s' !! s_graphAnimationOptionName ->
   s !! s_showFPSOptionName = s' !! s_showFPSOptionName ->
   Load s = Load s') /\
  Load (∅ : QSettings) = new.
Proof.
  split; [apply Save_Save|]. split; [|split; [apply Load_local | done]].
  unfold Save, setValue. rewrite !dom_insert_L.
  apply set_eq. intros key. rewrite !elem_of_union, !elem_of_singleton. tauto.
Qed.

Lemma Save_Load_algebra_witness :
  Load (Save (mkOptions false true) {[ "theme"%string := QInt 3 ]}) =
  Load (Save (mkOptions false true) ∅).
Proof.
  destruct (Save_Load_algebra (mkOptions false true) new
              (Save (mkOptions false true) {[ "theme"%string := QInt 3 ]})
              (Save (mkOptions false true) ∅)) as (_ & _ & Hlocal & _).
  apply Hlocal; reflexivity.
Defined.

End AnimGraphOptionsFacts.

(* ===================================================================== *)
(** * Properties of RuntimeAssetHandler *)
(* ===================================================================== *)

Module RuntimeAssetHandlerFacts.
Import RuntimeAssetHandler.

Section Facts.
Context {SerializeContext RuntimeData OtherData AssetFilterCB : Type}.
Variable LoadObjectFromStreamInPlace :
  GenericStream -> RuntimeData -> SerializeContext -> AssetFilterCB ->
  bool * RuntimeData * GenericStream.
Variable WriteClass :
  GenericStream -> SerializeContext -> RuntimeData -> bool * GenericStream.
Variable FileIO_instance : option (string -> option (list Z)).
Variable app_GetSerializeContext : option (option SerializeContext).

Abbreviation Load := (LoadAssetData LoadObjectFromStreamInPlace).
Abbreviation LoadPath :=
  (LoadAssetData_path LoadObjectFromStreamInPlace FileIO_instance).
Abbreviation Save := (SaveAssetData (OtherData := OtherData) WriteClass).
Abbreviation SetContext :=
  (SetSerializeContext (SerializeContext := SerializeContext)
     app_GetSerializeContext).

Implicit Types (h : handler SerializeContext)
  (asset : Asset RuntimeData OtherData) (stream : GenericStream)
  (cb : AssetFilterCB) (path : string).


Lemma Load_unusable h asset stream cb :
  unusable h asset ->
  Load h asset stream cb =
    mkOutcome false asset (Some stream)
              (assert_runtime_asset (GetAs_RuntimeAsset asset)).
Proof.
  unfold LoadAssetData. intros [H | H]; rewrite H; [done|].
  by destruct (GetAs_RuntimeAsset asset).
Qed.

Lemma Save_unusable h asset stream :
  unusable h asset ->
  Save h asset stream =
    mkOutcome false asset (Some stream)
              (assert_runtime_asset (GetAs_RuntimeAsset asset)).
Proof.
  unfold SaveAssetData. intros [H | H]; rewrite H; [done|].
  by destruct (GetAs_RuntimeAsset asset).
Qed.

Lemma Load_usable h asset stream cb data context :
  GetAs_RuntimeAsset asset = Some data ->
  m_serializeContext h = Some context ->
  Load h asset stream cb =
    let '(loadSuccess, data', stream') :=
      LoadObjectFromStreamInPlace (mkStream (content stream) 0) data context cb in
    mkOutcome loadSuccess (Some (RuntimeAsset data')) (Some stream') [].
Proof.
  intros Ha Hc. unfold LoadAssetData. rewrite Ha, Hc. reflexivity.
Qed.

Lemma LoadPath_no_FileIO h asset path cb :
  FileIO_instance = None -> ret (LoadPath h asset path cb) = false.
Proof. intros H. unfold LoadAssetData_path. by rewrite H. Qed.

Lemma LoadPath_not_open h asset path cb fileIO :
  FileIO_instance = Some fileIO -> fileIO path = None ->
  ret (LoadPath h asset path cb) = false.
Proof. intros H1 H2. unfold LoadAssetData_path. by rewrite H1, H2. Qed.

Lemma LoadPath_open h asset path cb fileIO bytes :
  FileIO_instance = Some fileIO -> fileIO path = Some bytes ->
  ret (LoadPath h asset path cb) = ret (Load h asset (mkStream bytes 0) cb) /\
  asset_after (LoadPath h asset path cb) =
    asset_after (Load h asset (mkStream bytes 0) cb).
Proof. intros H1 H2. unfold LoadAssetData_path. by rewrite H1, H2. Qed.

Lemma LoadPath_unusable h asset path cb :
  unusable h asset -> ret (LoadPath h asset path cb) = false.
Proof.
  intros Hu. unfold LoadAssetData_path.
  destruct FileIO_instance as [fileIO|]; [|done].
  destruct (fileIO path) as [bytes|]; [|done].
  simpl. by rewrite Load_unusable.
Qed.

(** C7: load and save return a boolean flag and fail soft.  The stream
    based LoadAssetData and SaveAssetData return false whenever the asset
    is not a RuntimeAsset or the serialize context is null; the path based
    LoadAssetData also returns false when there is no FileIO instance or
    the file cannot be opened, and otherwise returns what the stream based
    load returns on the opened stream. *)
Theorem load_save_fail_soft h asset stream cb path :
  (unusable h asset ->
     ret (Load h asset stream cb) = false /\
     ret (Save h asset stream) = false /\
     ret (LoadPath h asset path cb) = false) /\
  (FileIO_instance = None -> ret (LoadPath h asset path cb) = false) /\
  (forall fileIO, FileIO_instance = Some fileIO -> fileIO path = None ->
     ret (LoadPath h asset path cb) = false) /\
  (forall fileIO bytes, FileIO_instance = Some fileIO -> fileIO path = Some bytes ->
     ret (LoadPath h asset path cb) = ret (Load h asset (mkStream bytes 0) cb)).
Proof.
  split; [|split; [|split]].
  - intros Hu. rewrite Load_unusable, Save_unusable by done.
    split; [done|]. split; [done|]. by apply LoadPath_unusable.
  - apply LoadPath_no_FileIO.
  - intros fileIO. apply LoadPath_not_open.
  - intros fileIO bytes H1 H2. by destruct (LoadPath_open h asset path cb _ _ H1 H2).
Qed.

(** C9: the stream based LoadAssetData seeks to offset 0 before it
    deserializes, so for the same bytes and handler its result does not
    depend on the read position of the stream on entry. *)
Theorem LoadAssetData_ignores_position h asset cb (bytes : list Z) (pos pos' : nat) :
  ret (Load h asset (mkStream bytes pos) cb) =
    ret (Load h asset (mkStream bytes pos') cb) /\
  asset_after (Load h asset (mkStream bytes pos) cb) =
    asset_after (Load h asset (mkStream bytes pos') cb) /\
  reported (Load h asset (mkStream bytes pos) cb) =
    reported (Load h asset (mkStream bytes pos') cb) /\
  (forall data context,
     GetAs_RuntimeAsset asset = Some data ->
     m_serializeContext h = Some context ->
     Load h asset (mkStream bytes pos) cb =
       let '(loadSuccess, data', stream') :=
         LoadObjectFromStreamInPlace (mkStream bytes 0) data context cb in
       mkOutcome loadSuccess (Some (RuntimeAsset data')) (Some stream') []).
Proof.
  assert (forall data context,
     GetAs_RuntimeAsset asset = Some data ->
     m_serializeContext h = Some context ->
     forall p, Load h asset (mkStream bytes p) cb =
       let '(loadSuccess, data', stream') :=
         LoadObjectFromStreamInPlace (mkStream bytes 0) data context cb in
       mkOutcome loadSuccess (Some (RuntimeAsset data')) (Some stream') [])
    as Hgood.
  { intros data context Ha Hc p. by rewrite (Load_usable _ _ _ _ _ _ Ha Hc). }
  destruct (GetAs_RuntimeAsset asset) as [data|] eqn:Ha;
    [destruct (m_serializeContext h) as [context|] eqn:Hc|].
  - rewrite (Hgood _ _ eq_refl eq_refl pos), (Hgood _ _ eq_refl eq_refl pos').
    repeat split; try done. intros ? ? [= <-] [= <-]. reflexivity.
  - rewrite !Load_unusable by (by right). repeat split; try done.
  - rewrite !Load_unusable by (by left). repeat split; try done.
Qed.

(** C10: SetSerializeContext(nullptr) falls back to the serialize context
    of the application, asked over the component application bus; only
    when that gives none does the handler stay without a context, the
    error is reported, and load and save return false afterwards. *)
Theorem SetSerializeContext_null_fallback :
  (forall context,
     app_GetSerializeContext = Some (Some context) ->
     SetContext None = (mkHandler (Some context), [])) /\
  (app_GetSerializeContext = None \/ app_GetSerializeContext = Some None ->
     SetContext None =
       (mkHandler None, [ErrorReported "Script Canvas" no_context_msg]) /\
     forall asset stream cb path,
       ret (Load (SetContext None).1 asset stream cb) = false /\
       ret (Save (SetContext None).1 asset stream) = false /\
       ret (LoadPath (SetContext None).1 asset path cb) = false) /\
  (forall context, SetContext (Some context) = (mkHandler (Some context), [])) /\
  (forall context, new app_GetSerializeContext context = SetContext context).
Proof.
  split; [|split; [|split]].
  - intros context H. unfold SetSerializeContext. by rewrite H.
  - intros H.
    assert (SetContext None =
      (mkHandler None, [ErrorReported "Script Canvas" no_context_msg])) as Hset.
    { unfold SetSerializeContext. by destruct H as [-> | ->]. }
    split; [exact Hset|]. intros asset stream cb path. rewrite Hset. simpl.
    assert (unusable (SerializeContext := SerializeContext) (mkHandler None) asset)
      as Hu by (by right).
    rewrite Load_unusable, Save_unusable by done.
    split; [done|]. split; [done|]. by apply LoadPath_unusable.
  - done.
  - done.
Qed.


(** ** What a call reports and what it touches *)

Lemma reported_Load h asset stream cb :
  reported (Load h asset stream cb) =
    assert_runtime_asset (GetAs_RuntimeAsset asset).
Proof.
  unfold LoadAssetData.
  destruct (GetAs_RuntimeAsset asset) as [data|]; [|done].
  destruct (m_serializeContext h) as [context|]; [|done].
  by destruct (LoadObjectFromStreamInPlace _ _ _ _) as [[? ?] ?].
Qed.

Lemma reported_Save h asset stream :
  reported (Save h asset stream) =
    assert_runtime_asset (GetAs_RuntimeAsset asset).
Proof.
  unfold SaveAssetData.
  destruct (GetAs_RuntimeAsset asset) as [data|]; [|done].
  destruct (m_serializeContext h) as [context|]; [|done].
  by destruct (WriteClass _ _ _) as [? ?].
Qed.

Lemma assert_runtime_asset_nil (o : option RuntimeData) :
  assert_runtime_asset o = [] <-> is_Some o.
Proof. destruct o; simpl; split; (done || by intros [? ?]). Qed.

(** X14: The assertion is raised exactly when the asset is not a RuntimeAsset,
    also when the serialize context is missing too; a missing context
    alone is reported by nothing.  When the guard fails, stream and asset
    are left untouched (the stream is not even rewound).  The path based
    load gives up before the type check when there is no FileIO or the
    file does not open: nothing is reported and the asset is untouched. *)
Theorem guard_failure_effects h asset stream cb path :
  (reported (Load h asset stream cb) = [] <-> is_Some (GetAs_RuntimeAsset asset)) /\
  (reported (Save h asset stream) = [] <-> is_Some (GetAs_RuntimeAsset asset)) /\
  (unusable h asset ->
     asset_after (Load h asset stream cb) = asset /\
     stream_after (Load h asset stream cb) = Some stream /\
     asset_after (Save h asset stream) = asset /\
     stream_after (Save h asset stream) = Some stream) /\
  (FileIO_instance = None \/
   (exists fileIO, FileIO_instance = Some fileIO /\ fileIO path = None) ->
     LoadPath h asset path cb = mkOutcome false asset None []).
Proof.
  split; [rewrite reported_Load; apply assert_runtime_asset_nil|].
  split; [rewrite reported_Save; apply assert_runtime_asset_nil|].
  split.
  - intros Hu. by rewrite Load_unusable, Save_unusable.
  - unfold LoadAssetData_path. intros [-> | (fileIO & -> & ->)]; done.
Qed.

(** X15: Save never changes the asset.  Load keeps the kind of the asset: it
    is a RuntimeAsset afterwards exactly when it was one before.  When
    the load reaches the deserializer, the runtime data is afterwards
    what the deserializer left in place, whether it succeeded or not:
    a failed load is not rolled back. *)
Theorem asset_effects h asset stream cb :
  asset_after (Save h asset stream) = asset /\
  (is_Some (GetAs_RuntimeAsset (asset_after (Load h asset stream cb))) <->
   is_Some (GetAs_RuntimeAsset asset)) /\
  (forall data context,
     GetAs_RuntimeAsset asset = Some data ->
     m_serializeContext h = Some context ->
     GetAs_RuntimeAsset (asset_after (Load h asset stream cb)) =
       Some (LoadObjectFromStreamInPlace
               (mkStream (content stream) 0) data context cb).1.2).
Proof.
  split; [|split].
  - unfold SaveAssetData.
    destruct (GetAs_RuntimeAsset asset) as [data|]; [|done].
    destruct (m_serializeContext h) as [context|]; [|done].
    by destruct (WriteClass _ _ _) as [? ?].
  - destruct (GetAs_RuntimeAsset asset) as [data|] eqn:Ha;
      [destruct (m_serializeContext h) as [context|] eqn:Hc|].
    + rewrite (Load_usable _ _ _ _ _ _ Ha Hc).
      destruct (LoadObjectFromStreamInPlace _ _ _ _) as [[? ?] ?]. simpl.
      split; intros _; by eexists.
    + rewrite Load_unusable by (by right). simpl. by rewrite Ha.
    + rewrite Load_unusable by (by left). simpl. by rewrite Ha.
  - intros data context Ha Hc. rewrite (Load_usable _ _ _ _ _ _ Ha Hc).
    by destruct (LoadObjectFromStreamInPlace _ _ _ _) as [[? ?] ?].
Qed.

(** ** Setting the serialize context *)

(** X16: SetSerializeContext reports the error exactly when it leaves the
    handler without a context; setting the context the handler already
    has changes nothing; and a handler set up without an error loads a
    RuntimeAsset with exactly what the deserializer returns on the
    rewound stream. *)
Theorem SetSerializeContext_error_iff (context : option SerializeContext) :
  ((SetContext context).2 = [] <->
   is_Some (m_serializeContext (SetContext context).1)) /\
  SetContext (m_serializeContext (SetContext context).1) = SetContext context /\
  (forall data stream cb,
     (SetContext context).2 = [] ->
     exists c, m_serializeContext (SetContext context).1 = Some c /\
       Load (SetContext context).1 (Some (RuntimeAsset data)) stream cb =
         let '(loadSuccess, data', stream') :=
           LoadObjectFromStreamInPlace (mkStream (content stream) 0) data c cb in
         mkOutcome loadSuccess
           (Some (RuntimeAsset (OtherData := OtherData) data')) (Some stream') []).
Proof.
  assert ((SetContext context).2 = [] <->
          is_Some (m_serializeContext (SetContext context).1)) as Hiff.
  { unfold SetSerializeContext.
    destruct context as [c|]; simpl; [split; by eauto|].
    destruct app_GetSerializeContext as [[c|]|]; simpl;
      split; (by eauto) || (by intros [? ?]). }
  split; [done|]. split.
  - unfold SetSerializeContext.
    destruct context as [c|]; simpl; [done|].
    by destruct app_GetSerializeContext as [[c|]|].
  - intros data stream cb [c Hc]%Hiff. exists c. split; [done|].
    by apply Load_usable.
Qed.

End Facts.


Example demo_load_from_middle :
  ret (LoadAssetData demo_load (mkHandler (Some 5%nat)) demo_asset
         (mkStream [1; 2; 3] 2) tt) = true.
Proof. reflexivity. Qed.

Lemma load_save_fail_soft_witness :
  ret (LoadAssetData demo_load (mkHandler None) demo_asset (mkStream [1] 0) tt)
    = false /\
  ret (LoadAssetData_path demo_load None (mkHandler (Some 5%nat)) demo_asset
         "graph.scriptcanvas_compiled" tt) = false /\
  ret (LoadAssetData_path demo_load (Some demo_fs) (mkHandler (Some 5%nat))
         demo_asset "missing" tt) = false /\
  ret (LoadAssetData_path demo_load (Some demo_fs) (mkHandler (Some 5%nat))
         demo_asset "graph.scriptcanvas_compiled" tt) = true.
Proof.
  pose proof (load_save_fail_soft demo_load demo_write None
                (mkHandler None) demo_asset (mkStream [1] 0) tt
                "graph.scriptcanvas_compiled") as (H1 & _).
  pose proof (load_save_fail_soft demo_load demo_write None
                (mkHandler (Some 5%nat)) demo_asset (mkStream [1] 0) tt
                "graph.scriptcanvas_compiled") as (_ & H2 & _).
  pose proof (load_save_fail_soft demo_load demo_write (Some demo_fs)
                (mkHandler (Some 5%nat)) demo_asset (mkStream [1] 0) tt
                "missing") as (_ & _ & H3 & _).
  pose proof (load_save_fail_soft demo_load demo_write (Some demo_fs)
                (mkHandler (Some 5%nat)) demo_asset (mkStream [1] 0) tt
                "graph.scriptcanvas_compiled") as (_ & _ & _ & H4).
  split; [apply H1; right; reflexivity|].
  split; [apply H2; reflexivity|].
  split; [apply (H3 demo_fs); reflexivity|].
  rewrite (H4 demo_fs [1; 2; 3]) by reflexivity. reflexivity.
Defined.

Lemma LoadAssetData_ignores_position_witness :
  LoadAssetData demo_load (mkHandler (Some 5%nat)) demo_asset
    (mkStream [1; 2; 3] 2) tt =
  mkOutcome true (Some (RuntimeAsset 3%nat)) (Some (mkStream [1; 2; 3] 3)) [].
Proof.
  pose proof (LoadAssetData_ignores_position demo_load (mkHandler (Some 5%nat))
                demo_asset tt [1; 2; 3] 2 0) as (_ & _ & _ & H).
  rewrite (H 0%nat 5%nat) by reflexivity. reflexivity.
Defined.

Lemma SetSerializeContext_null_fallback_witness :
  SetSerializeContext (Some (Some 9%nat)) None = (mkHandler (Some 9%nat), []) /\
  ret (LoadAssetData demo_load (SetSerializeContext (Some None) None).1
         demo_asset (mkStream [1] 0) tt) = false.
Proof.
  pose proof (SetSerializeContext_null_fallback (OtherData := unit) demo_load
                demo_write (Some demo_fs) (Some (Some 9%nat))) as (H1 & _).
  pose proof (SetSerializeContext_null_fallback (OtherData := unit) demo_load
                demo_write (Some demo_fs) (Some None)) as (_ & H2 & _).
  split; [apply H1; reflexivity|].
  destruct H2 as [_ H2]; [right; reflexivity|].
  apply (H2 demo_asset (mkStream [1] 0) tt "missing"%string).
Defined.

Lemma guard_failure_effects_witness :
  LoadAssetData_path demo_load (Some demo_fs) (mkHandler None)
    (Some (OtherAsset tt)) "missing" tt
  = mkOutcome false (Some (OtherAsset tt)) None [] /\
  stream_after (SaveAssetData demo_write (mkHandler (Some 5%nat))
                  (Some (OtherAsset tt)) (mkStream [1; 2] 1))
  = Some (mkStream [1; 2] 1).
Proof.
  destruct (guard_failure_effects demo_load demo_write (Some demo_fs)
              (mkHandler None) (Some (OtherAsset tt)) (mkStream [1; 2] 1) tt
              "missing") as (_ & _ & _ & Hpath).
  destruct (guard_failure_effects demo_load demo_write (Some demo_fs)
              (mkHandler (Some 5%nat)) (Some (OtherAsset tt)) (mkStream [1; 2] 1)
              tt "missing") as (_ & _ & Huntouched & _).
  split.
  - apply Hpath. right. exists demo_fs. split; reflexivity.
  - apply Huntouched. left. reflexivity.
Defined.

Lemma asset_effects_witness :
  GetAs_RuntimeAsset
    (asset_after (LoadAssetData demo_load (mkHandler (Some 5%nat)) demo_asset
                    (mkStream [0; 2] 1) tt)) = Some 0%nat.
Proof.
  destruct (asset_effects (OtherData := unit) demo_load demo_write
              (mkHandler (Some 5%nat)) demo_asset (mkStream [0; 2] 1) tt)
    as (_ & _ & Hdata).
  rewrite (Hdata 0%nat 5%nat) by reflexivity. reflexivity.
Defined.

Lemma SetSerializeContext_error_iff_witness :
  ret (LoadAssetData demo_load (SetSerializeContext (Some (Some 9%nat)) None).1
         demo_asset (mkStream [1; 2] 1) tt) = true.
Proof.
  destruct (SetSerializeContext_error_iff (OtherData := unit) demo_load
              (Some (Some 9%nat)) None) as (_ & _ & Hload).
  destruct (Hload 0%nat (mkStream [1; 2] 1) tt eq_refl) as (c & _ & Heq).
  unfold demo_asset. rewrite Heq. reflexivity.
Defined.

(** ** Asset type information *)

Section TypeInfoFacts.
Context {Uuid AssetId RuntimeData OtherData : Type} `{!EqDecision Uuid}.
Variable RuntimeAsset_Uuid : Uuid.
Variable RuntimeAsset_FileExtension : string.
Variable fresh_runtimeData : RuntimeData.

(** X17: The handler is consistent about its asset type: the one type added
    by GetHandledAssetTypes is the type GetAssetType reports, it is the
    only type for which GetAssetTypeExtensions adds the file extension
    and for which CreateAsset raises no assertion; both queries keep the
    entries already in the vector; and CreateAsset makes a RuntimeAsset
    with the given id whatever type was asked for, so that what it
    creates always passes the type check of load and save. *)
Theorem type_info_consistent (ty : Uuid) (id : AssetId)
    (types : list Uuid) (exts : list string) :
  (ty ∈ GetHandledAssetTypes RuntimeAsset_Uuid [] <->
   ty = GetAssetType RuntimeAsset_Uuid) /\
  GetHandledAssetTypes RuntimeAsset_Uuid types =
    types ++ [GetAssetType RuntimeAsset_Uuid] /\
  GetAssetTypeExtensions RuntimeAsset_Uuid RuntimeAsset_FileExtension ty exts =
    (if decide (ty = GetAssetType RuntimeAsset_Uuid)
     then exts ++ [RuntimeAsset_FileExtension] else exts) /\
  ((CreateAsset (OtherData := OtherData) RuntimeAsset_Uuid fresh_runtimeData
      id ty).2 = [] <-> ty = GetAssetType RuntimeAsset_Uuid) /\
  (CreateAsset (OtherData := OtherData) RuntimeAsset_Uuid fresh_runtimeData
     id ty).1.1 = id /\
  GetAs_RuntimeAsset
    (Some (CreateAsset (OtherData := OtherData) RuntimeAsset_Uuid
             fresh_runtimeData id ty).1.2) = Some fresh_runtimeData.
Proof.
  unfold GetHandledAssetTypes, GetAssetTypeExtensions, GetAssetType, CreateAsset.
  simpl. split; [|split; [done|split; [done|split; [|done]]]].
  - rewrite list_elem_of_singleton. done.
  - case_decide; split; (done || by intros [= ]).
Qed.

End TypeInfoFacts.

End RuntimeAssetHandlerFacts.
